(** * Remember Scroll Position: the cache, the restore sequence and the flush

    A shallow embedding of [src/main.ts].  The plugin keeps, per document
    path, the last scroll offset seen ([db]), a copy of what was last
    flushed ([lastSavedDb]), and a few fields that order the restore of a
    position against the sampling of new ones.

    Conventions of the embedding.
    - A JavaScript number is [NaN] or a finite value; the infinities and
      the sign of zero are left out.  The plugin samples offsets through
      [toFixed(4)], so a finite value is kept as its count of
      ten-thousandths: [Fin 125000] is 12.5.
    - An object used as a map is the list of its own properties in creation
      order, which is the order [JSON.stringify] prints them in.  A property
      may hold [undefined]; reading it then gives the same [undefined] as
      reading a key that is not there, but the key is still an own key.
    - The text of the durable file is taken up to the JSON grammar: either
      it is not JSON at all, or it is the JSON object it denotes, of the
      shape [readDb] declares for its result (paths to objects with at most
      the member [scroll], a number or [null]).  Two texts printed by
      [JSON.stringify] are equal strings exactly when they denote the same
      members in the same order.
    - The keys of the cache are document paths: none is an array index or
      a name the object prototype defines.
    - An [async] method is cut at its [await]s: the part before the first
      one runs with the call, each later part runs when its timer fires, on
      the plugin fields and the workspace as they are by then. *)

From Stdlib Require Import ZArith List String Ascii Bool Lia.
Import ListNotations.
Local Open Scope Z_scope.

(** ** JavaScript values and objects *)
Module Js.

Inductive number : Type :=
| NaN
| Fin (q : Z).

(** What a slot typed [number | undefined] can hold at run time; [null] is
    what [JSON.parse] gives back for a [NaN] that was printed. *)
Inductive value : Type :=
| Undefined
| Null
| Number (n : number).

(** [if (v)] on such a slot. *)
Definition truthy (v : value) : bool :=
  match v with
  | Number (Fin q) => negb (q =? 0)
  | _ => false
  end.

(** [a == b]. *)
Definition loose_eq (a b : value) : bool :=
  match a, b with
  | Undefined, Undefined | Undefined, Null
  | Null, Undefined | Null, Null => true
  | Number (Fin x), Number (Fin y) => x =? y
  | _, _ => false
  end.

(** The global [isNaN], which converts with [Number()] first. *)
Definition isNaN (v : value) : bool :=
  match v with
  | Undefined => true
  | Null => false
  | Number NaN => true
  | Number (Fin _) => false
  end.

(** [if (s)] on a [string | undefined]. *)
Definition truthy_string (s : option string) : bool :=
  match s with
  | Some s => negb (String.eqb s "")
  | None => false
  end.

(** [a == b] on two [string | undefined]. *)
Definition string_eq (a b : option string) : bool :=
  match a, b with
  | Some x, Some y => String.eqb x y
  | None, None => true
  | _, _ => false
  end.

(** [String(s)], as [+] applies it to one operand of a concatenation. *)
Definition to_string (s : option string) : string :=
  match s with
  | Some s => s
  | None => "undefined"%string
  end.

Fixpoint lastIndexOf_from (c : ascii) (s : string) (i found : Z) : Z :=
  match s with
  | EmptyString => found
  | String a r =>
      lastIndexOf_from c r (i + 1) (if Ascii.eqb a c then i else found)
  end.

(** [s.lastIndexOf(c)], [-1] when [c] does not occur. *)
Definition lastIndexOf (c : ascii) (s : string) : Z :=
  lastIndexOf_from c s 0 (-1).

(** [s.substring(0, n)]; a negative [n] counts as 0. *)
Definition substring0 (n : Z) (s : string) : string :=
  String.substring 0 (Z.to_nat n) s.

(** An object as the list of its own properties. *)
Definition object (V : Type) : Type := list (string * V).

Section Object.
Context {V : Type}.

Fixpoint own (o : object V) (k : string) : option V :=
  match o with
  | [] => None
  | (k', v) :: r => if String.eqb k' k then Some v else own r k
  end.

(** [k in o], for an object without prototype keys. *)
Definition has_own (o : object V) (k : string) : bool :=
  match own o k with
  | Some _ => true
  | None => false
  end.

(** [o[k] = v]: an own key keeps its place, a new one goes last. *)
Fixpoint assign (o : object V) (k : string) (v : V) : object V :=
  match o with
  | [] => [(k, v)]
  | (k', v') :: r =>
      if String.eqb k' k then (k', v) :: r else (k', v') :: assign r k v
  end.

(** [delete o[k]]. *)
Definition remove (o : object V) (k : string) : object V :=
  filter (fun e => negb (String.eqb (fst e) k)) o.

Definition keys (o : object V) : list string := map fst o.

(** What the list must satisfy to be an object: no key twice. *)
Definition well_formed (o : object V) : Prop := NoDup (keys o).
End Object.

Inductive exn : Type :=
| SyntaxError
| IOError.

(** The outcome of a call that may throw (or of an awaited promise). *)
Inductive result (A : Type) : Type :=
| Ok (a : A)
| Throw (e : exn).
Arguments Ok {A} a.
Arguments Throw {A} e.

End Js.

Notation "'try!' x <- c ; k" :=
  (match c with
   | Js.Ok x => k
   | Js.Throw e => Js.Throw e
   end)
  (at level 10, x name, c at level 100, k at level 200).

(** ** The data model of the plugin *)

Record PluginSettings : Type := mkSettings {
  dbFileName : string;
  delayAfterFileOpening : Z;
  saveTimer : Z
}.

Definition SAFE_DB_FLUSH_INTERVAL : Z := 5000.

Definition DEFAULT_SETTINGS : PluginSettings :=
  {| dbFileName :=
       ".obsidian/plugins/remember-scroll-position/scroll-positions.json";
     delayAfterFileOpening := 100;
     saveTimer := SAFE_DB_FLUSH_INTERVAL |}.

Record EphemeralState : Type := mkState {
  scroll : Js.value
}.

(** [{ [file_path: string]: EphemeralState }]; a property holds a state or
    [undefined] ([None]). *)
Definition Db : Type := Js.object (option EphemeralState).

(** [db[k]]: [undefined] for a missing key as for a key holding it. *)
Definition db_get (db : Db) (k : string) : option EphemeralState :=
  match Js.own db k with
  | Some v => v
  | None => None
  end.

(** ** JSON, for the shape of the durable file *)

(** The member ["scroll"] of one state object. *)
Inductive json_scroll : Type :=
| JAbsent
| JNull
| JNumber (q : Z).

Definition json_db : Type := list (string * json_scroll).

Inductive text : Type :=
| NotJson
| Json (j : json_db).

Definition json_scroll_eq_dec (a b : json_scroll) : {a = b} + {a <> b}.
Proof. decide equality; apply Z.eq_dec. Defined.

Definition text_eq_dec (a b : text) : {a = b} + {a <> b}.
Proof.
  decide equality.
  apply list_eq_dec. intros [k1 s1] [k2 s2].
  destruct (string_dec k1 k2) as [->|Hk];
    [destruct (json_scroll_eq_dec s1 s2) as [->|Hs]|].
  - left; reflexivity.
  - right; intros H; inversion H; contradiction.
  - right; intros H; inversion H; contradiction.
Defined.

(** [a !== b] on two texts. *)
Definition text_neq (a b : text) : bool :=
  if text_eq_dec a b then false else true.

(** A member with value [undefined] is left out, [NaN] prints as [null]. *)
Definition stringify_state (st : EphemeralState) : json_scroll :=
  match scroll st with
  | Js.Undefined => JAbsent
  | Js.Null => JNull
  | Js.Number Js.NaN => JNull
  | Js.Number (Js.Fin q) => JNumber q
  end.

Definition parse_state (j : json_scroll) : EphemeralState :=
  match j with
  | JAbsent => {| scroll := Js.Undefined |}
  | JNull => {| scroll := Js.Null |}
  | JNumber q => {| scroll := Js.Number (Js.Fin q) |}
  end.

Definition stringify_members (db : Db) : json_db :=
  flat_map (fun e =>
              match snd e with
              | Some st => [(fst e, stringify_state st)]
              | None => []
              end) db.

Definition JSON_stringify (db : Db) : text := Json (stringify_members db).

(** Members are assigned in the order of the text; a repeated key keeps its
    first place and its last value. *)
Definition parse_members (j : json_db) : Db :=
  fold_left (fun o e => Js.assign o (fst e) (Some (parse_state (snd e)))) j [].

Definition JSON_parse (t : text) : Js.result Db :=
  match t with
  | NotJson => Js.Throw Js.SyntaxError
  | Json j => Js.Ok (parse_members j)
  end.

(** ** The host: workspace and vault adapter *)

Record Leaf : Type := mkLeaf {
  leaf_id : string;
  leaf_type : string;            (* [getViewState().type] *)
  leaf_file : option string      (* [getViewState().state.file] *)
}.

Record MarkdownView : Type := mkView {
  view_file : string;            (* the document the view shows *)
  view_scroll : Js.number        (* [currentMode.getScroll()] *)
}.

Record Workspace : Type := mkWorkspace {
  activeFile : option string;               (* [getActiveFile()?.path] *)
  mostRecentLeaf : option Leaf;             (* [getMostRecentLeaf()] *)
  allLeaves : list Leaf;                    (* [iterateAllLeaves] *)
  flashingSpan : bool;   (* [containerEl.querySelector('span.is-flashing')] *)
  activeMarkdownView : option MarkdownView  (* [getActiveViewOfType] *)
}.

(** The host's [view.setEphemeralState(state)]: the view scrolls to the
    offset it is given. *)
Definition view_setEphemeralState (v : MarkdownView) (st : EphemeralState)
  : MarkdownView :=
  match scroll st with
  | Js.Number n => {| view_file := view_file v; view_scroll := n |}
  | _ => v
  end.

(** The vault adapter: directories, files, and whether its calls fail. *)
Record Vault : Type := mkVault {
  folders : list string;
  files : Js.object text;
  read_fails : bool;
  write_fails : bool;
  mkdir_fails : bool
}.

Definition adapter_exists (v : Vault) (path : string) : bool :=
  Js.has_own (files v) path || existsb (String.eqb path) (folders v).

Definition adapter_read (v : Vault) (path : string) : Js.result text :=
  if read_fails v then Js.Throw Js.IOError
  else match Js.own (files v) path with
       | Some t => Js.Ok t
       | None => Js.Throw Js.IOError
       end.

(** A call of the adapter that the plugin does not await: it is issued, and
    the vault changes if the call goes through. *)
Inductive Io : Type :=
| IoMkdir (path : string)
| IoWrite (path : string) (data : text).

Definition adapter_write (v : Vault) (path : string) (data : text) : Vault :=
  if write_fails v then v
  else {| folders := folders v;
          files := Js.assign (files v) path data;
          read_fails := read_fails v;
          write_fails := write_fails v;
          mkdir_fails := mkdir_fails v |}.

Definition adapter_mkdir (v : Vault) (path : string) : Vault :=
  if mkdir_fails v then v
  else {| folders := path :: folders v;
          files := files v;
          read_fails := read_fails v;
          write_fails := write_fails v;
          mkdir_fails := mkdir_fails v |}.

Definition is_write (e : Io) : bool :=
  match e with
  | IoWrite _ _ => true
  | IoMkdir _ => false
  end.

Definition writes (io : list Io) : nat := List.length (filter is_write io).

(** ** The plugin *)

Record TAbstractFile : Type := mkFile { path : string }.

Record Plugin : Type := mkPlugin {
  settings : PluginSettings;
  db : Db;
  lastSavedDb : Db;
  lastEphemeralState : option EphemeralState;
  lastLoadedFileName : option string;
  loadedLeafIdList : list string;
  loadingFile : bool
}.

Definition set_db (p : Plugin) (d : Db) : Plugin :=
  {| settings := settings p; db := d; lastSavedDb := lastSavedDb p;
     lastEphemeralState := lastEphemeralState p;
     lastLoadedFileName := lastLoadedFileName p;
     loadedLeafIdList := loadedLeafIdList p;
     loadingFile := loadingFile p |}.

Definition set_lastSavedDb (p : Plugin) (d : Db) : Plugin :=
  {| settings := settings p; db := db p; lastSavedDb := d;
     lastEphemeralState := lastEphemeralState p;
     lastLoadedFileName := lastLoadedFileName p;
     loadedLeafIdList := loadedLeafIdList p;
     loadingFile := loadingFile p |}.

Definition set_lastEphemeralState (p : Plugin) (st : option EphemeralState)
  : Plugin :=
  {| settings := settings p; db := db p; lastSavedDb := lastSavedDb p;
     lastEphemeralState := st;
     lastLoadedFileName := lastLoadedFileName p;
     loadedLeafIdList := loadedLeafIdList p;
     loadingFile := loadingFile p |}.

Definition set_lastLoadedFileName (p : Plugin) (f : option string) : Plugin :=
  {| settings := settings p; db := db p; lastSavedDb := lastSavedDb p;
     lastEphemeralState := lastEphemeralState p;
     lastLoadedFileName := f;
     loadedLeafIdList := loadedLeafIdList p;
     loadingFile := loadingFile p |}.

Definition set_loadedLeafIdList (p : Plugin) (l : list string) : Plugin :=
  {| settings := settings p; db := db p; lastSavedDb := lastSavedDb p;
     lastEphemeralState := lastEphemeralState p;
     lastLoadedFileName := lastLoadedFileName p;
     loadedLeafIdList := l;
     loadingFile := loadingFile p |}.

Definition set_loadingFile (p : Plugin) (b : bool) : Plugin :=
  {| settings := settings p; db := db p; lastSavedDb := lastSavedDb p;
     lastEphemeralState := lastEphemeralState p;
     lastLoadedFileName := lastLoadedFileName p;
     loadedLeafIdList := loadedLeafIdList p;
     loadingFile := b |}.

(** *** Rename and delete notifications *)

Definition renameFile (file : TAbstractFile) (oldPath : string) (p : Plugin)
  : Plugin :=
  let newName := path file in
  let oldName := oldPath in
  let p := set_db p (Js.assign (db p) newName (db_get (db p) oldName)) in
  set_db p (Js.remove (db p) oldName).

Definition deleteFile (file : TAbstractFile) (p : Plugin) : Plugin :=
  let fileName := path file in
  set_db p (Js.remove (db p) fileName).

(** *** Change detection *)

Definition isEphemeralStatesEquals (state1 state2 : EphemeralState) : bool :=
  if Js.truthy (scroll state1) && negb (Js.truthy (scroll state2)) then false
  else if negb (Js.truthy (scroll state1)) && Js.truthy (scroll state2)
  then false
  else if Js.truthy (scroll state1)
          && negb (Js.loose_eq (scroll state1) (scroll state2))
  then false
  else true.

(** [Number(view?.currentMode?.getScroll()?.toFixed(4))]: [NaN] when there
    is no markdown view, else the offset of the view, which the embedding
    already keeps to four decimals. *)
Definition getEphemeralState (w : Workspace) : EphemeralState :=
  {| scroll := Js.Number match activeMarkdownView w with
                         | Some v => view_scroll v
                         | None => Js.NaN
                         end |}.

Definition saveEphemeralState (w : Workspace) (st : EphemeralState)
  (p : Plugin) : Plugin :=
  let fileName := activeFile w in
  if Js.truthy_string fileName
     && Js.string_eq fileName (lastLoadedFileName p)
  then match fileName with
       | Some f => set_db p (Js.assign (db p) f (Some st))
       | None => p
       end
  else p.

Definition checkEphemeralStateChanged (w : Workspace) (p : Plugin) : Plugin :=
  let fileName := activeFile w in
  if negb (Js.truthy_string fileName)
     || negb (Js.truthy_string (lastLoadedFileName p))
     || negb (Js.string_eq fileName (lastLoadedFileName p))
     || loadingFile p
  then p
  else
    let st := getEphemeralState w in
    let last := match lastEphemeralState p with
                | Some l => l
                | None => st
                end in
    let p := match lastEphemeralState p with
             | Some _ => p
             | None => set_lastEphemeralState p (Some st)
             end in
    if negb (Js.isNaN (scroll st)) && negb (isEphemeralStatesEquals st last)
    then set_lastEphemeralState (saveEphemeralState w st p) (Some st)
    else p.

(** *** The restore sequence *)

(** Where [restoreEphemeralState] is suspended, with the local [st] it
    holds. *)
Inductive Suspended : Type :=
| AwaitSettle (st : EphemeralState)  (* in [delay(delayAfterFileOpening)] *)
| AwaitApply (st : EphemeralState).  (* in [delay(10)] *)

(** [(leaf as any).id + ':' + leaf.getViewState().state.file]. *)
Definition leaf_key (l : Leaf) : string :=
  (leaf_id l ++ ":" ++ Js.to_string (leaf_file l))%string.

Definition setEphemeralState (w : Workspace) (state : EphemeralState)
  : Workspace :=
  match activeMarkdownView w with
  | Some view =>
      if Js.truthy (scroll state)
      then {| activeFile := activeFile w;
              mostRecentLeaf := mostRecentLeaf w;
              allLeaves := allLeaves w;
              flashingSpan := flashingSpan w;
              activeMarkdownView := Some (view_setEphemeralState view state) |}
      else w
  | None => w
  end.

(** The last two assignments of the sequence: the baseline, then the flag. *)
Definition restore_end (st : option EphemeralState) (p : Plugin) : Plugin :=
  set_loadingFile (set_lastEphemeralState p st) false.

(** The call, up to its first [await] or to its end. *)
Definition restoreEphemeralState (w : Workspace) (p : Plugin)
  : Plugin * option Suspended :=
  let fileName := activeFile w in
  if Js.truthy_string fileName && loadingFile p
     && Js.string_eq (lastLoadedFileName p) fileName
  then (p, None)
  else if match mostRecentLeaf w with
          | Some activeLeaf =>
              existsb (String.eqb (leaf_key activeLeaf)) (loadedLeafIdList p)
          | None => false
          end
  then (p, None)
  else
    let p := set_loadedLeafIdList p
               (map leaf_key
                  (filter (fun leaf => String.eqb (leaf_type leaf) "markdown")
                     (allLeaves w))) in
    let p := set_loadingFile p true in
    if negb (Js.string_eq (lastLoadedFileName p) fileName)
    then
      let p := set_lastEphemeralState p (Some {| scroll := Js.Undefined |}) in
      let p := set_lastLoadedFileName p fileName in
      match (if Js.truthy_string fileName then fileName else None) with
      | Some f =>
          match db_get (db p) f with
          | Some st => (p, Some (AwaitSettle st))
          | None => (restore_end None p, None)
          end
      | None => (restore_end None p, None)
      end
    else (set_loadingFile p false, None).

(** The rest of the call, run when the timer it waits on fires. *)
Definition resume (k : Suspended) (w : Workspace) (p : Plugin)
  : Workspace * Plugin * option Suspended :=
  match k with
  | AwaitSettle st =>
      if flashingSpan w
      then (w, restore_end (Some st) p, None)
      else (w, p, Some (AwaitApply st))
  | AwaitApply st =>
      (setEphemeralState w st, restore_end (Some st) p, None)
  end.

(** *** The durable file *)

Definition readDb (s : PluginSettings) (v : Vault) : Js.result Db :=
  if adapter_exists v (dbFileName s)
  then try! data <- adapter_read v (dbFileName s); JSON_parse data
  else Js.Ok [].

(** [writeDb(db)].  Both callers pass [this.db], the object the comparison
    reads; [mkdir] and [write] are issued and not awaited. *)
Definition writeDb (dbarg : Db) (p : Plugin) (v : Vault)
  : Js.result (Plugin * Vault * list Io) :=
  let name := dbFileName (settings p) in
  let newParentFolder := Js.substring0 (Js.lastIndexOf "/" name) name in
  let '(v, io) :=
    if negb (adapter_exists v newParentFolder)
    then (adapter_mkdir v newParentFolder, [IoMkdir newParentFolder])
    else (v, []) in
  if text_neq (JSON_stringify (db p)) (JSON_stringify (lastSavedDb p))
  then
    let data := JSON_stringify dbarg in
    let v := adapter_write v name data in
    try! copy <- JSON_parse data;
    Js.Ok (set_lastSavedDb p copy, v, io ++ [IoWrite name data])
  else Js.Ok (p, v, io).

(** The periodic tick and the quit notification: [this.writeDb(this.db)]. *)
Definition flush (p : Plugin) (v : Vault)
  : Js.result (Plugin * Vault * list Io) :=
  writeDb (db p) p v.

(** *** Startup *)

(** What [loadData()] returns: the saved options, each possibly missing. *)
Record SettingsData : Type := mkData {
  data_dbFileName : option string;
  data_delayAfterFileOpening : option Z;
  data_saveTimer : option Z
}.

Definition loadSettings (data : option SettingsData) : PluginSettings :=
  let pick {A} (f : SettingsData -> option A) (d : A) : A :=
    match data with
    | Some x => match f x with Some a => a | None => d end
    | None => d
    end in
  let settings :=
    {| dbFileName := pick data_dbFileName (dbFileName DEFAULT_SETTINGS);
       delayAfterFileOpening :=
         pick data_delayAfterFileOpening
              (delayAfterFileOpening DEFAULT_SETTINGS);
       saveTimer := pick data_saveTimer (saveTimer DEFAULT_SETTINGS) |} in
  if saveTimer settings <? SAFE_DB_FLUSH_INTERVAL
  then {| dbFileName := dbFileName settings;
          delayAfterFileOpening := delayAfterFileOpening settings;
          saveTimer := SAFE_DB_FLUSH_INTERVAL |}
  else settings.

(** The [try] of [onload]: two reads, at [v1] and at [v2]; either one that
    throws lands in the [catch], which empties both fields. *)
Definition onload_read (s : PluginSettings) (v1 v2 : Vault) : Db * Db :=
  match (try! d <- readDb s v1; try! l <- readDb s v2; Js.Ok (d, l)) with
  | Js.Ok r => r
  | Js.Throw _ => ([], [])
  end.

(** [onload], with the field initialisers of the class; it ends by calling
    [restoreEphemeralState], whose promise it does not await. *)
Definition onload (data : option SettingsData) (v1 v2 : Vault) (w : Workspace)
  : Plugin * option Suspended :=
  let s := loadSettings data in
  let '(d, l) := onload_read s v1 v2 in
  restoreEphemeralState w
    {| settings := s; db := d; lastSavedDb := l;
       lastEphemeralState := None;
       lastLoadedFileName := None;
       loadedLeafIdList := [];
       loadingFile := false |}.

(** *** The equality rule as the specification words it *)

(** Follows the specification, not the source: two states are equal when
    both define [scroll] with the same value or both leave it undefined; it
    is here to be compared with [isEphemeralStatesEquals]. *)
Definition states_equal_as_specified (state1 state2 : EphemeralState) : bool :=
  match scroll state1, scroll state2 with
  | Js.Undefined, Js.Undefined => true
  | Js.Number (Js.Fin x), Js.Number (Js.Fin y) => x =? y
  | _, _ => false
  end.

(** *** What a cache holds *)

(** The properties of the cache that hold a state. *)
Definition defined_entries (d : Db) : Db :=
  filter (fun e => match snd e with Some _ => true | None => false end) d.

(** No state in the cache has [NaN] for its scroll. *)
Definition no_nan (d : Db) : Prop :=
  Forall (fun e => match snd e with
                   | Some st => scroll st <> Js.Number Js.NaN
                   | None => True
                   end) d.

(** What every cache the plugin builds satisfies. *)
Definition cache_ok (d : Db) : Prop := Js.well_formed d /\ no_nan d.

(** The vault once the parent folder has been seen to: same files, same
    faults, and no write issued yet. *)
Definition folder_step (v v0 : Vault) (io0 : list Io) : Prop :=
  files v0 = files v
  /\ write_fails v0 = write_fails v
  /\ read_fails v0 = read_fails v
  /\ writes io0 = 0%nat.

(** The three ways the read at startup can find no usable file. *)
Definition file_absent (s : PluginSettings) (v : Vault) : Prop :=
  adapter_exists v (dbFileName s) = false.

Definition read_error (s : PluginSettings) (v : Vault) : Prop :=
  adapter_exists v (dbFileName s) = true
  /\ exists e, adapter_read v (dbFileName s) = Js.Throw e.

Definition malformed (s : PluginSettings) (v : Vault) : Prop :=
  adapter_exists v (dbFileName s) = true
  /\ adapter_read v (dbFileName s) = Js.Ok NotJson.

(** *** The states the plugin goes through *)

Definition pending_of (k : option Suspended) : list Suspended :=
  match k with
  | Some k => [k]
  | None => []
  end.

(** [reachable p ks]: the event loop can bring the plugin fields to [p] with
    the restore sequences [ks] suspended.  Each rule is one callback. *)
Inductive reachable : Plugin -> list Suspended -> Prop :=
| reach_onload data v1 v2 w :
    reachable (fst (onload data v1 v2 w))
              (pending_of (snd (onload data v1 v2 w)))
| reach_rename file oldPath p ks :
    reachable p ks ->
    reachable (renameFile file oldPath p) ks
| reach_delete file p ks :
    reachable p ks ->
    reachable (deleteFile file p) ks
| reach_scroll w p ks :
    reachable p ks ->
    reachable (checkEphemeralStateChanged w p) ks
| reach_open w p ks :
    reachable p ks ->
    reachable (fst (restoreEphemeralState w p))
              (ks ++ pending_of (snd (restoreEphemeralState w p)))
| reach_resume k w p ks1 ks2 :
    reachable p (ks1 ++ k :: ks2) ->
    reachable (snd (fst (resume k w p)))
              (ks1 ++ pending_of (snd (resume k w p)) ++ ks2)
| reach_flush v p ks r :
    reachable p ks ->
    flush p v = Js.Ok r ->
    reachable (fst (fst r)) ks.

(** *** Sample data for the worked runs *)

Definition no_faults (dirs : list string) (fs : Js.object text) : Vault :=
  {| folders := dirs; files := fs;
     read_fails := false; write_fails := false; mkdir_fails := false |}.

Definition empty_vault : Vault := no_faults [] [].

(** One pane, showing document [f] scrolled to [q]. *)
Definition viewing (f : string) (q : Z) : Workspace :=
  let leaf := {| leaf_id := "pane"; leaf_type := "markdown";
                 leaf_file := Some f |} in
  {| activeFile := Some f;
     mostRecentLeaf := Some leaf;
     allLeaves := [leaf];
     flashingSpan := false;
     activeMarkdownView := Some {| view_file := f;
                                   view_scroll := Js.Fin q |} |}.

Definition at_offset (q : Z) : EphemeralState :=
  {| scroll := Js.Number (Js.Fin q) |}.

(** *** Throttled scroll notifications *)

(** The arrow functions the plugin hands to [setTimeout], and the timers of
    everyone else. *)
Inductive Callback : Type :=
| ThrottleElapsed   (* [checkEphemeralStateChanged(); scrollThrottleTimer = null] *)
| KeySettled        (* [() => this.onScrollEvent()] *)
| Foreign.

Record Timer : Type := mkTimer {
  timer_id : Z;
  timer_due : Z;                 (* the time, in ms, it may fire from *)
  timer_callback : Callback
}.

(** The timers of [window]: those pending, and the next identifier. *)
Record Window : Type := mkWindow {
  timers : list Timer;
  next_timer_id : Z
}.

(** [window.setTimeout(cb, ms)] at time [now]. *)
Definition window_setTimeout (win : Window) (cb : Callback) (ms now : Z)
  : Window * Z :=
  ({| timers := timers win ++ [{| timer_id := next_timer_id win;
                                  timer_due := now + ms;
                                  timer_callback := cb |}];
      next_timer_id := next_timer_id win + 1 |},
   next_timer_id win).

(** [clearTimeout(id)]. *)
Definition window_clearTimeout (win : Window) (id : Z) : Window :=
  {| timers := filter (fun t => negb (timer_id t =? id)) (timers win);
     next_timer_id := next_timer_id win |}.

(** The plugin with the field [scrollThrottleTimer] and the timers it
    lives among. *)
Record Runtime : Type := mkRuntime {
  plugin : Plugin;
  scrollThrottleTimer : option Z;
  window : Window
}.

(** [if (t)] on a [number | null]. *)
Definition truthy_timer (t : option Z) : bool :=
  match t with
  | Some id => negb (id =? 0)
  | None => false
  end.

Definition onScrollEvent (now : Z) (r : Runtime) : Runtime :=
  let win := match scrollThrottleTimer r with
             | Some id => if truthy_timer (Some id)
                          then window_clearTimeout (window r) id
                          else window r
             | None => window r
             end in
  let '(win, id) := window_setTimeout win ThrottleElapsed 50 now in
  {| plugin := plugin r; scrollThrottleTimer := Some id; window := win |}.

Definition scrollKeys : list string :=
  ["ArrowUp"; "ArrowDown"; "PageUp"; "PageDown"; "Home"; "End";
   "Space"]%string.

(** [onKeyboardEvent(event)], given [event.key]. *)
Definition onKeyboardEvent (key : string) (now : Z) (r : Runtime) : Runtime :=
  if existsb (String.eqb key) scrollKeys
  then {| plugin := plugin r;
          scrollThrottleTimer := scrollThrottleTimer r;
          window := fst (window_setTimeout (window r) KeySettled 10 now) |}
  else r.

Definition onunload (r : Runtime) : Runtime :=
  match scrollThrottleTimer r with
  | Some id => if truthy_timer (Some id)
               then {| plugin := plugin r;
                       scrollThrottleTimer := None;
                       window := window_clearTimeout (window r) id |}
               else r
  | None => r
  end.

(** A pending timer fires at time [now]: it leaves the pending ones and its
    callback runs, on the workspace as it is then. *)
Definition fire (t : Timer) (w : Workspace) (now : Z) (r : Runtime) : Runtime :=
  let r := {| plugin := plugin r;
              scrollThrottleTimer := scrollThrottleTimer r;
              window := window_clearTimeout (window r) (timer_id t) |} in
  match timer_callback t with
  | ThrottleElapsed =>
      {| plugin := checkEphemeralStateChanged w (plugin r);
         scrollThrottleTimer := None;
         window := window r |}
  | KeySettled => onScrollEvent now r
  | Foreign => r
  end.

Definition is_throttle (t : Timer) : bool :=
  match timer_callback t with
  | ThrottleElapsed => true
  | _ => false
  end.

(** Identifiers are positive, below the next one, and not handed out
    twice. *)
Definition window_ok (win : Window) : Prop :=
  0 < next_timer_id win
  /\ Forall (fun t => 0 < timer_id t < next_timer_id win) (timers win)
  /\ NoDup (map timer_id (timers win)).

(** [running r]: the plugin was constructed among timers that are not its
    own, and the event loop has brought it to [r]. *)
Inductive running : Runtime -> Prop :=
| run_start p win :
    window_ok win ->
    Forall (fun t => timer_callback t = Foreign) (timers win) ->
    running {| plugin := p; scrollThrottleTimer := None; window := win |}
| run_scroll now r :
    running r ->
    running (onScrollEvent now r)
| run_key key now r :
    running r ->
    running (onKeyboardEvent key now r)
| run_fire t w now r :
    running r ->
    In t (timers (window r)) ->
    timer_due t <= now ->
    running (fire t w now r)
| run_foreign ms now r :
    running r ->
    running {| plugin := plugin r;
               scrollThrottleTimer := scrollThrottleTimer r;
               window := fst (window_setTimeout (window r) Foreign ms now) |}
| run_handler (f : Plugin -> Plugin) r :
    running r ->
    running {| plugin := f (plugin r);
               scrollThrottleTimer := scrollThrottleTimer r;
               window := window r |}
| run_unload r :
    running r ->
    running (onunload r).

(** What ties the field to the timers: a pending throttle timer is the one
    the field names. *)
Definition throttle_ok (r : Runtime) : Prop :=
  window_ok (window r)
  /\ forall t, In t (timers (window r)) ->
               is_throttle t = true ->
               scrollThrottleTimer r = Some (timer_id t).

(** And the other way round: the timer the field names is pending. *)
Definition field_ok (r : Runtime) : Prop :=
  forall id, scrollThrottleTimer r = Some id ->
             exists t, In t (timers (window r))
                       /\ timer_id t = id /\ is_throttle t = true.

(** The state a suspended sequence holds. *)
Definition held (k : Suspended) : EphemeralState :=
  match k with
  | AwaitSettle st => st
  | AwaitApply st => st
  end.

(** A restore sequence that nothing interleaves with: the call on [w0],
    the settle timer on [w1], the last timer on [w2].  It gives the last
    workspace it saw and the plugin fields at its end. *)
Definition restore_run (w0 w1 w2 : Workspace) (p : Plugin)
  : Workspace * Plugin :=
  match restoreEphemeralState w0 p with
  | (p1, None) => (w0, p1)
  | (p1, Some k1) =>
      match resume k1 w1 p1 with
      | (w1', p2, None) => (w1', p2)
      | (_, p2, Some k2) => fst (resume k2 w2 p2)
      end
  end.

(** [undisturbed p q]: from [p], only rename, delete, evaluation and flush
    callbacks have run; no open notification, and no resumption of a
    restore sequence. *)
Inductive undisturbed : Plugin -> Plugin -> Prop :=
| und_here p :
    undisturbed p p
| und_rename file oldPath p q :
    undisturbed p q ->
    undisturbed p (renameFile file oldPath q)
| und_delete file p q :
    undisturbed p q ->
    undisturbed p (deleteFile file q)
| und_scroll w p q :
    undisturbed p q ->
    undisturbed p (checkEphemeralStateChanged w q)
| und_flush v p q r :
    undisturbed p q ->
    flush q v = Js.Ok r ->
    undisturbed p (fst (fst r)).

(** * Properties *)

(** ** Objects *)

Section ObjectFacts.
Context {V : Type}.
Implicit Types (o : Js.object V) (k : string) (v : V).

Lemma own_assign_same o k v : Js.own (Js.assign o k v) k = Some v.
Proof.
  induction o as [|[k' v'] r IH]; simpl.
  - now rewrite String.eqb_refl.
  - destruct (String.eqb k' k) eqn:E; simpl; rewrite E; auto.
Qed.

Lemma own_assign_other o k k' v :
  k <> k' -> Js.own (Js.assign o k v) k' = Js.own o k'.
Proof.
  intros Hne. induction o as [|[k0 v0] r IH]; simpl.
  - destruct (String.eqb k k') eqn:E; auto.
    apply String.eqb_eq in E. contradiction.
  - destruct (String.eqb k0 k) eqn:E; simpl.
    + apply String.eqb_eq in E. subst k0.
      destruct (String.eqb k k') eqn:E'; auto.
      apply String.eqb_eq in E'. contradiction.
    + now rewrite IH.
Qed.

Lemma own_remove_same o k : Js.own (Js.remove o k) k = None.
Proof.
  induction o as [|[k' v'] r IH]; simpl; auto.
  destruct (String.eqb k' k) eqn:E; simpl; auto.
  now rewrite E.
Qed.

Lemma own_remove_other o k k' :
  k <> k' -> Js.own (Js.remove o k) k' = Js.own o k'.
Proof.
  intros Hne. induction o as [|[k0 v0] r IH]; simpl; auto.
  destruct (String.eqb k0 k) eqn:E; simpl.
  - apply String.eqb_eq in E. subst k0.
    destruct (String.eqb k k') eqn:E'; auto.
    apply String.eqb_eq in E'. contradiction.
  - now rewrite IH.
Qed.

Lemma own_none_not_key o k : Js.own o k = None <-> ~ In k (Js.keys o).
Proof.
  induction o as [|[k' v'] r IH]; simpl.
  - tauto.
  - destruct (String.eqb k' k) eqn:E.
    + apply String.eqb_eq in E. split; [discriminate | intros H; tauto].
    + apply String.eqb_neq in E. rewrite IH. tauto.
Qed.

Lemma assign_new o k v :
  ~ In k (Js.keys o) -> Js.assign o k v = o ++ [(k, v)].
Proof.
  induction o as [|[k' v'] r IH]; simpl; intros Hn; auto.
  destruct (String.eqb k' k) eqn:E.
  - apply String.eqb_eq in E. tauto.
  - rewrite IH; tauto.
Qed.

Lemma keys_assign_old o k v :
  In k (Js.keys o) -> Js.keys (Js.assign o k v) = Js.keys o.
Proof.
  induction o as [|[k' v'] r IH]; simpl; intros Hin; [tauto|].
  destruct (String.eqb k' k) eqn:E; simpl; auto.
  apply String.eqb_neq in E. f_equal. apply IH. tauto.
Qed.

Lemma well_formed_assign o k v :
  Js.well_formed o -> Js.well_formed (Js.assign o k v).
Proof.
  unfold Js.well_formed. intros Hwf.
  destruct (in_dec string_dec k (Js.keys o)) as [Hin|Hn].
  - now rewrite keys_assign_old.
  - rewrite assign_new by assumption. unfold Js.keys in *.
    rewrite map_app. simpl.
    apply NoDup_app; auto.
    + constructor; [simpl; tauto | constructor].
    + intros x Hx [Hx'|[]]. subst. contradiction.
Qed.

Lemma well_formed_remove o k :
  Js.well_formed o -> Js.well_formed (Js.remove o k).
Proof.
  unfold Js.well_formed, Js.remove, Js.keys.
  induction o as [|[k' v'] r IH]; simpl; intros Hwf; auto.
  inversion Hwf as [|? ? Hn Hr]; subst.
  destruct (String.eqb k' k); simpl; auto.
  constructor; auto.
  intros Hin. apply Hn. apply in_map_iff in Hin.
  destruct Hin as [e [He Hin]]. apply filter_In in Hin.
  apply in_map_iff. exists e. tauto.
Qed.

Lemma In_assign o k v e :
  In e (Js.assign o k v) -> e = (k, v) \/ In e o.
Proof.
  induction o as [|[k' v'] r IH]; simpl.
  - intros [H|[]]; auto.
  - destruct (String.eqb k' k) eqn:E; simpl.
    + apply String.eqb_eq in E. subst. intros [H|H]; auto.
    + intros [H|H]; auto. destruct (IH H); auto.
Qed.
End ObjectFacts.

(** ** Comparing two states *)

Lemma truthy_number v :
  Js.truthy v = true <-> exists q, v = Js.Number (Js.Fin q) /\ q <> 0.
Proof.
  destruct v as [| |[|q]]; simpl; split;
    try discriminate; try (intros [q' [H _]]; discriminate).
  - intros H. exists q. split; auto.
    apply negb_true_iff in H. now apply Z.eqb_neq.
  - intros [q' [H Hq]]. inversion H; subst.
    apply negb_true_iff. now apply Z.eqb_neq.
Qed.

(** What the three tests of the source add up to: the states compare equal
    when neither scroll is truthy, or both are and the numbers agree. *)
Lemma isEphemeralStatesEquals_true state1 state2 :
  isEphemeralStatesEquals state1 state2 = true <->
  (Js.truthy (scroll state1) = false /\ Js.truthy (scroll state2) = false)
  \/ (Js.truthy (scroll state1) = true /\ scroll state1 = scroll state2).
Proof.
  unfold isEphemeralStatesEquals.
  destruct (Js.truthy (scroll state1)) eqn:T1,
           (Js.truthy (scroll state2)) eqn:T2; simpl.
  - apply truthy_number in T1. apply truthy_number in T2.
    destruct T1 as [x [-> Hx]]. destruct T2 as [y [-> Hy]]. simpl.
    destruct (Z.eqb_spec x y) as [->|Hxy]; simpl.
    + split; auto.
    + split; [discriminate|].
      intros [[H _]|[_ H]]; [discriminate|]. inversion H. contradiction.
  - split; [discriminate|].
    intros [[H _]|[_ H]]; [discriminate|]. rewrite H in T1. congruence.
  - split; [discriminate|]. intros [[_ H]|[H _]]; discriminate.
  - split; auto.
Qed.

(** Away from a scroll of 0, [null] and [NaN] the source and the
    specification compare alike. *)
Lemma isEphemeralStatesEquals_as_specified state1 state2 :
  (scroll state1 = Js.Undefined \/ Js.truthy (scroll state1) = true) ->
  (scroll state2 = Js.Undefined \/ Js.truthy (scroll state2) = true) ->
  isEphemeralStatesEquals state1 state2
  = states_equal_as_specified state1 state2.
Proof.
  unfold isEphemeralStatesEquals, states_equal_as_specified.
  destruct state1 as [[| |[|x]]], state2 as [[| |[|y]]]; simpl;
    intros [H1|H1] [H2|H2]; try discriminate; auto.
  - now rewrite H2.
  - now rewrite H1.
  - rewrite H1, H2. simpl. now destruct (x =? y).
Qed.

(** C1.  The claim: [isEphemeralStatesEquals] answers true exactly when both
    states define [scroll] with the same value or both leave it undefined,
    so a state with [scroll = 0] is unequal to one without [scroll].  The
    source tests presence by truthiness, and 0 is falsy: on [{scroll: 0}]
    against [{}], and against [{scroll: NaN}], it answers true, where the
    rule of the claim answers false. *)
Lemma isEphemeralStatesEquals_zero_undefined :
  (isEphemeralStatesEquals (at_offset 0) {| scroll := Js.Undefined |} = true
   /\ states_equal_as_specified (at_offset 0) {| scroll := Js.Undefined |}
      = false)
  /\ (isEphemeralStatesEquals (at_offset 0) {| scroll := Js.Number Js.NaN |}
      = true
      /\ states_equal_as_specified
           (at_offset 0) {| scroll := Js.Number Js.NaN |} = false).
Proof. repeat split. Qed.

(** ** Rename and delete *)

Lemma db_renameFile file oldPath p :
  db (renameFile file oldPath p)
  = Js.remove (Js.assign (db p) (path file) (db_get (db p) oldPath)) oldPath.
Proof. reflexivity. Qed.

(** C2, as claimed, fails twice.  Renaming a document onto its own path
    deletes its entry; and when the old key is absent the new key is not
    absent afterwards but an own key that holds [undefined]. *)
Lemma renameFile_same_path_or_absent_old :
  let st := {| scroll := Js.Number (Js.Fin 125000) |} in
  let p (d : Db) := {| settings := DEFAULT_SETTINGS; db := d; lastSavedDb := [];
                       lastEphemeralState := None; lastLoadedFileName := None;
                       loadedLeafIdList := []; loadingFile := false |} in
  (db_get (db (p [("a.md"%string, Some st)])) "a.md" = Some st
   /\ db_get (db (renameFile {| path := "a.md" |} "a.md"
                              (p [("a.md"%string, Some st)]))) "a.md" = None)
  /\ (Js.has_own (db (p [])) "a.md" = false
      /\ Js.has_own (db (renameFile {| path := "b.md" |} "a.md" (p [])))
                    "b.md" = true).
Proof. repeat split. Qed.

(** C2, amended.  For two different paths: after the rename, reading the
    cache at the new path gives what reading it at the old path gave before,
    the old path is no key any more, and every other key is untouched.  When
    the old path was no key, reading the new one gives [undefined]. *)
Theorem renameFile_moves_entry file oldPath p :
  path file <> oldPath ->
  let db' := db (renameFile file oldPath p) in
  db_get db' (path file) = db_get (db p) oldPath
  /\ Js.has_own db' oldPath = false
  /\ (Js.has_own (db p) oldPath = false -> db_get db' (path file) = None)
  /\ forall k, Js.own db' k
               = if String.eqb k oldPath then None
                 else if String.eqb k (path file)
                      then Some (db_get (db p) oldPath)
                      else Js.own (db p) k.
Proof.
  intros Hne db'. subst db'. rewrite db_renameFile.
  assert (Hall : forall k,
    Js.own (Js.remove (Js.assign (db p) (path file) (db_get (db p) oldPath))
                      oldPath) k
    = if String.eqb k oldPath then None
      else if String.eqb k (path file) then Some (db_get (db p) oldPath)
           else Js.own (db p) k).
  { intros k. destruct (String.eqb k oldPath) eqn:Eo.
    - apply String.eqb_eq in Eo. subst k. apply own_remove_same.
    - apply String.eqb_neq in Eo.
      rewrite own_remove_other by congruence.
      destruct (String.eqb k (path file)) eqn:En.
      + apply String.eqb_eq in En. subst k. apply own_assign_same.
      + apply String.eqb_neq in En. apply own_assign_other. congruence. }
  assert (Hnew : db_get (Js.remove (Js.assign (db p) (path file)
                                      (db_get (db p) oldPath)) oldPath)
                        (path file) = db_get (db p) oldPath).
  { unfold db_get at 1. rewrite Hall.
    destruct (String.eqb (path file) oldPath) eqn:E.
    - apply String.eqb_eq in E. contradiction.
    - now rewrite String.eqb_refl. }
  repeat split.
  - exact Hnew.
  - unfold Js.has_own. now rewrite own_remove_same.
  - intros Habs. rewrite Hnew. unfold db_get, Js.has_own in *.
    destruct (Js.own (db p) oldPath); [discriminate | reflexivity].
  - exact Hall.
Qed.

Lemma renameFile_moves_entry_witness :
  let p := {| settings := DEFAULT_SETTINGS;
              db := [("a.md"%string,
                      Some {| scroll := Js.Number (Js.Fin 125000) |})];
              lastSavedDb := [];
              lastEphemeralState := None; lastLoadedFileName := None;
              loadedLeafIdList := []; loadingFile := false |} in
  {| path := "b.md" |}.(path) <> "a.md"%string
  /\ db_get (db (renameFile {| path := "b.md" |} "a.md" p)) "b.md"
     = db_get (db p) "a.md".
Proof.
  intros p.
  assert (Hne : {| path := "b.md" |}.(path) <> "a.md"%string)
    by (simpl; discriminate).
  split; [exact Hne|].
  exact (proj1 (renameFile_moves_entry {| path := "b.md" |} "a.md" p Hne)).
Defined.

(** C9.  After a delete notification for a document, whatever the cache
    held, its path is no key of the cache and reads as [undefined]; every
    other key holds what it held, in the same order. *)
Theorem deleteFile_removes_entry file p :
  let db' := db (deleteFile file p) in
  Js.has_own db' (path file) = false
  /\ db_get db' (path file) = None
  /\ (forall k, Js.own db' k
                = if String.eqb k (path file) then None else Js.own (db p) k)
  /\ db' = filter (fun e => negb (String.eqb (fst e) (path file))) (db p).
Proof.
  simpl. unfold Js.has_own, db_get. rewrite own_remove_same.
  repeat split.
  intros k. destruct (String.eqb k (path file)) eqn:E.
  - apply String.eqb_eq in E. subst. apply own_remove_same.
  - apply String.eqb_neq in E. apply own_remove_other. congruence.
Qed.

(** ** Applying a state to the view *)

(** C10.  A state whose scroll is exactly 0, or undefined, is never applied:
    [setEphemeralState] returns the workspace as it was, and so does each
    later part of the restore sequence that holds such a state. *)
Theorem setEphemeralState_zero_or_undefined w state :
  scroll state = Js.Number (Js.Fin 0) \/ scroll state = Js.Undefined ->
  setEphemeralState w state = w
  /\ forall p, fst (fst (resume (AwaitSettle state) w p)) = w
             /\ fst (fst (resume (AwaitApply state) w p)) = w.
Proof.
  intros H.
  assert (Hset : setEphemeralState w state = w).
  { unfold setEphemeralState.
    destruct (activeMarkdownView w); auto.
    destruct H as [-> | ->]; reflexivity. }
  split; [exact Hset|]. intros p. simpl.
  split; [destruct (flashingSpan w); reflexivity | exact Hset].
Qed.

Lemma setEphemeralState_zero_or_undefined_witness :
  scroll (at_offset 0) = Js.Number (Js.Fin 0)
  /\ setEphemeralState (viewing "a.md" 420000) (at_offset 0)
     = viewing "a.md" 420000.
Proof.
  split; [reflexivity|].
  exact (proj1 (setEphemeralState_zero_or_undefined
                  (viewing "a.md" 420000) (at_offset 0)
                  (or_introl eq_refl))).
Defined.

(** C3, as claimed, fails.  The plugin starts on [a.md], whose saved offset
    is 120, and suspends in the settle delay.  The user moves the pane to
    [b.md]; the open notification for it runs to its end.  The two timers
    then fire, and the state looked up for [a.md] lands on the view that
    shows [b.md]. *)
Lemma restore_lands_on_other_document :
  let saved := no_faults [] [(dbFileName DEFAULT_SETTINGS,
                              Json [("a.md"%string, JNumber 1200000)])] in
  let boot := onload None saved saved (viewing "a.md" 0) in
  let nav := restoreEphemeralState (viewing "b.md" 0) (fst boot) in
  db_get (db (fst boot)) "a.md" = Some (at_offset 1200000)
  /\ snd boot = Some (AwaitSettle (at_offset 1200000))
  /\ snd nav = None
  /\ resume (AwaitSettle (at_offset 1200000)) (viewing "b.md" 0) (fst nav)
     = (viewing "b.md" 0, fst nav, Some (AwaitApply (at_offset 1200000)))
  /\ fst (fst (resume (AwaitApply (at_offset 1200000))
                      (viewing "b.md" 0) (fst nav)))
     = viewing "b.md" 1200000.
Proof. vm_compute. repeat split. Qed.

(** C3, amended.  A sequence that suspends holds the state saved for the
    document that was active when it started.  When the settle timer fires
    with the flashing marker present, nothing is applied and the sequence
    ends.  When it fires without the marker, the sequence waits the short
    delay; when that timer fires the sequence ends, and the state, if its
    scroll is truthy, is applied to whichever markdown view is active by
    then: the document of that view is not looked at. *)
Theorem restore_applies_to_active_view w0 p0 p1 k :
  restoreEphemeralState w0 p0 = (p1, Some k) ->
  exists f st,
    activeFile w0 = Some f
    /\ db_get (db p0) f = Some st
    /\ forall w1 p2,
         (flashingSpan w1 = true ->
          resume k w1 p2 = (w1, restore_end (Some st) p2, None))
         /\ (flashingSpan w1 = false ->
             exists k2,
               resume k w1 p2 = (w1, p2, Some k2)
               /\ forall w2 p3,
                    snd (resume k2 w2 p3) = None
                    /\ forall view q,
                         activeMarkdownView w2 = Some view ->
                         scroll st = Js.Number (Js.Fin q) ->
                         q <> 0 ->
                         activeMarkdownView (fst (fst (resume k2 w2 p3)))
                         = Some {| view_file := view_file view;
                                   view_scroll := Js.Fin q |}).
Proof.
  intros Hstart.
  unfold restoreEphemeralState in Hstart.
  destruct (Js.truthy_string (activeFile w0) && loadingFile p0
            && Js.string_eq (lastLoadedFileName p0) (activeFile w0));
    [inversion Hstart|].
  destruct (match mostRecentLeaf w0 with
            | Some activeLeaf =>
                existsb (String.eqb (leaf_key activeLeaf))
                        (loadedLeafIdList p0)
            | None => false
            end); [inversion Hstart|].
  cbn [set_loadingFile set_loadedLeafIdList lastLoadedFileName] in Hstart.
  destruct (negb (Js.string_eq (lastLoadedFileName p0) (activeFile w0)));
    [|inversion Hstart].
  destruct (Js.truthy_string (activeFile w0)) eqn:Ht; [|inversion Hstart].
  destruct (activeFile w0) as [f|] eqn:Ef; [|inversion Hstart].
  cbn [set_lastLoadedFileName set_lastEphemeralState set_loadingFile
       set_loadedLeafIdList db] in Hstart.
  destruct (db_get (db p0) f) as [st|] eqn:Eg; inversion Hstart; subst.
  exists f, st. split; [reflexivity|]. split; [exact Eg|].
  intros w1 p2. split.
  - intros Hflash. simpl. now rewrite Hflash.
  - intros Hflash. exists (AwaitApply st). split.
    + simpl. now rewrite Hflash.
    + intros w2 p3. split; [reflexivity|].
      intros view q Hview Hs Hq. simpl. unfold setEphemeralState.
      rewrite Hview, Hs. simpl.
      destruct (Z.eqb_spec q 0) as [->|_]; [contradiction|]. simpl.
      unfold view_setEphemeralState. now rewrite Hs.
Qed.

Lemma restore_applies_to_active_view_witness :
  let p0 := {| settings := DEFAULT_SETTINGS;
               db := [("a.md"%string, Some (at_offset 1200000))];
               lastSavedDb := [];
               lastEphemeralState := None; lastLoadedFileName := None;
               loadedLeafIdList := []; loadingFile := false |} in
  let p1 := fst (restoreEphemeralState (viewing "a.md" 0) p0) in
  let k := AwaitSettle (at_offset 1200000) in
  restoreEphemeralState (viewing "a.md" 0) p0 = (p1, Some k)
  /\ exists f st,
       activeFile (viewing "a.md" 0) = Some f
       /\ db_get (db p0) f = Some st
       /\ exists k2,
            resume k (viewing "b.md" 0) p1 = (viewing "b.md" 0, p1, Some k2)
            /\ snd (resume k2 (viewing "b.md" 0) p1) = None.
Proof.
  intros p0 p1 k.
  assert (H : restoreEphemeralState (viewing "a.md" 0) p0 = (p1, Some k))
    by reflexivity.
  split; [exact H|].
  destruct (restore_applies_to_active_view _ _ _ _ H)
    as [f [st [Ha [Hg Hrun]]]].
  exists f, st. split; [exact Ha|]. split; [exact Hg|].
  destruct (proj2 (Hrun (viewing "b.md" 0) p1) eq_refl) as [k2 [Hk2 Hend]].
  exists k2. split; [exact Hk2|].
  exact (proj1 (Hend (viewing "b.md" 0) p1)).
Defined.

(** ** Change detection *)

Lemma truthy_string_some f :
  Js.truthy_string (Some f) = true <-> f <> ""%string.
Proof.
  simpl. rewrite negb_true_iff. split.
  - intros H. now apply String.eqb_neq.
  - intros H. now apply String.eqb_neq.
Qed.

(** With no baseline the sample becomes the baseline and the cache is left
    alone. *)
Lemma checkEphemeralStateChanged_adopts_baseline w p :
  lastEphemeralState p = None ->
  db (checkEphemeralStateChanged w p) = db p
  /\ (checkEphemeralStateChanged w p = p
      \/ lastEphemeralState (checkEphemeralStateChanged w p)
         = Some (getEphemeralState w)).
Proof.
  intros Hnone. unfold checkEphemeralStateChanged.
  destruct (negb (Js.truthy_string (activeFile w))
            || negb (Js.truthy_string (lastLoadedFileName p))
            || negb (Js.string_eq (activeFile w) (lastLoadedFileName p))
            || loadingFile p); [auto|].
  rewrite Hnone.
  assert (Heq : isEphemeralStatesEquals (getEphemeralState w)
                                        (getEphemeralState w) = true).
  { apply isEphemeralStatesEquals_true.
    destruct (Js.truthy (scroll (getEphemeralState w))); auto. }
  rewrite Heq, andb_false_r. simpl. auto.
Qed.

(** C5, as claimed, fails.  The plugin starts on [a.md], for which nothing
    is saved; the user scrolls to 300 and the evaluation fires with [a.md]
    active, loaded, and no restore in progress.  The sample is taken as the
    baseline and the cache still has no entry for [a.md]. *)
Lemma first_sample_is_not_saved :
  let p := fst (onload None empty_vault empty_vault (viewing "a.md" 0)) in
  let w := viewing "a.md" 3000000 in
  activeFile w = Some "a.md"%string
  /\ lastLoadedFileName p = Some "a.md"%string
  /\ loadingFile p = false
  /\ getEphemeralState w = at_offset 3000000
  /\ db_get (db (checkEphemeralStateChanged w p)) "a.md" = None.
Proof. vm_compute. repeat split. Qed.

(** C5, amended.  For a document [D] with a non-empty path: when the
    evaluation fires while [D] is active, [lastLoadedFileName] is [D], no
    restore is in progress and the sample is numeric, then, if a baseline
    exists and [isEphemeralStatesEquals] finds the sample different from
    it, the cache entry for [D] becomes the sampled state; if no baseline
    exists, the cache is left as it is.  Either way the sample is the
    baseline afterwards. *)
Theorem checkEphemeralStateChanged_saves_sample w p D :
  D <> ""%string ->
  activeFile w = Some D ->
  lastLoadedFileName p = Some D ->
  loadingFile p = false ->
  Js.isNaN (scroll (getEphemeralState w)) = false ->
  let p' := checkEphemeralStateChanged w p in
  (forall last,
      lastEphemeralState p = Some last ->
      isEphemeralStatesEquals (getEphemeralState w) last = false ->
      db_get (db p') D = Some (getEphemeralState w)
      /\ lastEphemeralState p' = Some (getEphemeralState w))
  /\ (lastEphemeralState p = None ->
      db p' = db p /\ lastEphemeralState p' = Some (getEphemeralState w)).
Proof.
  intros HD Hact Hlast Hload Hnum p'. subst p'.
  apply truthy_string_some in HD. split.
  - intros last Hbase Hdiff.
    unfold checkEphemeralStateChanged, saveEphemeralState.
    rewrite Hact, Hlast, Hload, Hbase, HD. simpl Js.string_eq.
    rewrite String.eqb_refl. cbn [negb orb].
    rewrite Hnum, Hdiff. cbn [negb andb].
    rewrite Hlast, String.eqb_refl.
    cbn [set_lastEphemeralState set_db db lastEphemeralState].
    split; [|reflexivity].
    unfold db_get. now rewrite own_assign_same.
  - intros Hnone.
    destruct (checkEphemeralStateChanged_adopts_baseline w p Hnone)
      as [Hdb _].
    split; [exact Hdb|].
    unfold checkEphemeralStateChanged.
    rewrite Hact, Hlast, Hload, Hnone, HD. simpl Js.string_eq.
    rewrite String.eqb_refl. cbn [negb orb].
    destruct (negb (Js.isNaN (scroll (getEphemeralState w)))
              && negb (isEphemeralStatesEquals (getEphemeralState w)
                                               (getEphemeralState w)));
      reflexivity.
Qed.

Lemma checkEphemeralStateChanged_saves_sample_witness :
  let p := {| settings := DEFAULT_SETTINGS;
              db := [("a.md"%string, Some (at_offset 125000))];
              lastSavedDb := [];
              lastEphemeralState := Some (at_offset 125000);
              lastLoadedFileName := Some "a.md"%string;
              loadedLeafIdList := []; loadingFile := false |} in
  let w := viewing "a.md" 400000 in
  (activeFile w = Some "a.md"%string
   /\ isEphemeralStatesEquals (getEphemeralState w) (at_offset 125000) = false)
  /\ db_get (db (checkEphemeralStateChanged w p)) "a.md"
     = Some (at_offset 400000).
Proof.
  intros p w. split; [split; reflexivity|].
  assert (HD : "a.md"%string <> ""%string) by discriminate.
  exact (proj1 (proj1 (checkEphemeralStateChanged_saves_sample
                         w p "a.md" HD eq_refl eq_refl eq_refl eq_refl)
                      (at_offset 125000) eq_refl eq_refl)).
Defined.

(** ** JSON *)

Lemma stringify_parse_state j : stringify_state (parse_state j) = j.
Proof. destruct j; reflexivity. Qed.

Lemma parse_stringify_state st :
  scroll st <> Js.Number Js.NaN -> parse_state (stringify_state st) = st.
Proof.
  destruct st as [[| |[|q]]]; unfold stringify_state; simpl; intros H;
    try reflexivity.
  contradiction.
Qed.

Lemma NoDup_keys_filter {V} (f : string * V -> bool) (o : Js.object V) :
  NoDup (map fst o) -> NoDup (map fst (filter f o)).
Proof.
  induction o as [|e r IH]; simpl; intros Hnd; auto.
  inversion Hnd as [|? ? Hn Hr]; subst.
  destruct (f e); simpl; auto.
  constructor; auto.
  intros Hin. apply Hn. apply in_map_iff in Hin.
  destruct Hin as [x [Hx Hin]]. apply filter_In in Hin.
  apply in_map_iff. exists x. tauto.
Qed.

Lemma keys_stringify_members d :
  map fst (stringify_members d) = map fst (defined_entries d).
Proof.
  induction d as [|[k [st|]] r IH]; simpl; auto.
  now rewrite IH.
Qed.

Lemma NoDup_stringify_members d :
  Js.well_formed d -> NoDup (map fst (stringify_members d)).
Proof.
  intros Hwf. rewrite keys_stringify_members.
  now apply NoDup_keys_filter.
Qed.

Lemma fold_assign_fresh (j : json_db) (acc : Db) :
  NoDup (Js.keys acc ++ map fst j) ->
  fold_left (fun o e => Js.assign o (fst e) (Some (parse_state (snd e)))) j acc
  = acc ++ map (fun e => (fst e, Some (parse_state (snd e)))) j.
Proof.
  revert acc. induction j as [|[k x] r IH]; intros acc Hnd; simpl.
  - now rewrite app_nil_r.
  - assert (Hk : ~ In k (Js.keys acc)).
    { intros Hin. apply NoDup_remove_2 in Hnd. apply Hnd.
      apply in_or_app. now left. }
    rewrite assign_new by exact Hk.
    rewrite IH.
    + now rewrite <- app_assoc.
    + unfold Js.keys in *. rewrite map_app. simpl.
      rewrite <- app_assoc. exact Hnd.
Qed.

Lemma parse_members_NoDup j :
  NoDup (map fst j) ->
  parse_members j = map (fun e => (fst e, Some (parse_state (snd e)))) j.
Proof. intros Hnd. unfold parse_members. now rewrite fold_assign_fresh. Qed.

Lemma stringify_members_parsed j :
  stringify_members (map (fun e => (fst e, Some (parse_state (snd e)))) j) = j.
Proof.
  induction j as [|[k x] r IH]; simpl; auto.
  now rewrite stringify_parse_state, IH.
Qed.

(** Printing the copy prints the same text again. *)
Lemma stringify_parse_stringify d :
  Js.well_formed d ->
  stringify_members (parse_members (stringify_members d))
  = stringify_members d.
Proof.
  intros Hwf. rewrite parse_members_NoDup by now apply NoDup_stringify_members.
  apply stringify_members_parsed.
Qed.

(** Parsing what was printed gives the properties that hold a state. *)
Lemma parse_stringify_members d :
  Js.well_formed d -> no_nan d ->
  parse_members (stringify_members d) = defined_entries d.
Proof.
  intros Hwf Hnan.
  rewrite parse_members_NoDup by now apply NoDup_stringify_members.
  clear Hwf. induction Hnan as [|[k [st|]] r Hst _ IH]; simpl; auto.
  now rewrite parse_stringify_state, IH.
Qed.

Lemma db_get_defined_entries d k :
  Js.well_formed d -> db_get (defined_entries d) k = db_get d k.
Proof.
  unfold db_get, Js.well_formed.
  induction d as [|[k' v] r IH]; simpl; intros Hwf; auto.
  inversion Hwf as [|? ? Hn Hr]; subst.
  destruct v as [st|]; simpl.
  - destruct (String.eqb k' k); auto.
  - destruct (String.eqb k' k) eqn:E; auto.
    apply String.eqb_eq in E. subst k'.
    assert (Hnone : Js.own (defined_entries r) k = None).
    { apply own_none_not_key. intros Hin. apply Hn.
      unfold Js.keys, defined_entries in Hin. apply in_map_iff in Hin.
      destruct Hin as [x [Hx Hin]]. apply filter_In in Hin.
      apply in_map_iff. exists x. tauto. }
    now rewrite Hnone.
Qed.

Lemma text_neq_true a b : text_neq a b = true <-> a <> b.
Proof.
  unfold text_neq. destruct (text_eq_dec a b); split; intros; auto;
    try discriminate; contradiction.
Qed.

Lemma text_neq_false a b : text_neq a b = false <-> a = b.
Proof.
  unfold text_neq. destruct (text_eq_dec a b); split; intros; auto;
    try discriminate; contradiction.
Qed.

(** ** The flush *)

Lemma writeDb_unchanged dbarg p v :
  JSON_stringify (db p) = JSON_stringify (lastSavedDb p) ->
  exists v0 io0, folder_step v v0 io0
                 /\ writeDb dbarg p v = Js.Ok (p, v0, io0).
Proof.
  intros Heq. apply text_neq_false in Heq. unfold writeDb.
  destruct (negb (adapter_exists v _)); rewrite Heq.
  - eexists _, _. split; [|reflexivity].
    unfold folder_step, adapter_mkdir.
    destruct (mkdir_fails v); simpl; auto.
  - eexists _, _. split; [|reflexivity]. unfold folder_step. auto.
Qed.

Lemma writeDb_changed dbarg p v :
  JSON_stringify (db p) <> JSON_stringify (lastSavedDb p) ->
  exists v0 io0,
    folder_step v v0 io0
    /\ writeDb dbarg p v
       = Js.Ok (set_lastSavedDb p (parse_members (stringify_members dbarg)),
                adapter_write v0 (dbFileName (settings p))
                              (JSON_stringify dbarg),
                io0 ++ [IoWrite (dbFileName (settings p))
                                (JSON_stringify dbarg)]).
Proof.
  intros Hne. apply text_neq_true in Hne. unfold writeDb.
  destruct (negb (adapter_exists v _)); rewrite Hne.
  - eexists _, _. split; [|reflexivity].
    unfold folder_step, adapter_mkdir.
    destruct (mkdir_fails v); simpl; auto.
  - eexists _, _. split; [|reflexivity]. unfold folder_step. auto.
Qed.

Lemma writes_app io1 io2 : writes (io1 ++ io2) = (writes io1 + writes io2)%nat.
Proof. unfold writes. now rewrite filter_app, length_app. Qed.

(** A flush never touches the cache. *)
Lemma flush_db p v r : flush p v = Js.Ok r -> db (fst (fst r)) = db p.
Proof.
  unfold flush. intros H.
  destruct (text_eq_dec (JSON_stringify (db p)) (JSON_stringify (lastSavedDb p)))
    as [Heq|Hne].
  - destruct (writeDb_unchanged (db p) p v Heq) as [v0 [io0 [_ Hw]]].
    rewrite Hw in H. inversion H. reflexivity.
  - destruct (writeDb_changed (db p) p v Hne) as [v0 [io0 [_ Hw]]].
    rewrite Hw in H. inversion H. reflexivity.
Qed.

(** C6.  Two flushes in a row, the cache untouched in between: the second
    issues no write and changes nothing.  The first issues exactly one
    write, of the serialized cache, and replaces the shadow cache by the
    copy, when the two serialized forms differ; when they match it issues
    none either. *)
Theorem flush_twice_writes_once p v v' :
  Js.well_formed (db p) ->
  exists p1 v1 io1 v2 io2,
    flush p v = Js.Ok (p1, v1, io1)
    /\ flush p1 v' = Js.Ok (p1, v2, io2)
    /\ writes io2 = 0%nat
    /\ db p1 = db p
    /\ (JSON_stringify (db p) <> JSON_stringify (lastSavedDb p) ->
        writes io1 = 1%nat
        /\ In (IoWrite (dbFileName (settings p)) (JSON_stringify (db p))) io1
        /\ lastSavedDb p1 = parse_members (stringify_members (db p)))
    /\ (JSON_stringify (db p) = JSON_stringify (lastSavedDb p) ->
        writes io1 = 0%nat /\ p1 = p).
Proof.
  intros Hwf. unfold flush.
  destruct (text_eq_dec (JSON_stringify (db p)) (JSON_stringify (lastSavedDb p)))
    as [Heq|Hne].
  - destruct (writeDb_unchanged (db p) p v Heq) as [v0 [io0 [Hf Hw]]].
    destruct (writeDb_unchanged (db p) p v' Heq) as [v2 [io2 [Hf2 Hw2]]].
    exists p, v0, io0, v2, io2.
    repeat split; auto; try apply Hf; try apply Hf2; contradiction.
  - destruct (writeDb_changed (db p) p v Hne) as [v0 [io0 [Hf Hw]]].
    set (p1 := set_lastSavedDb p (parse_members (stringify_members (db p)))).
    assert (Hsame : JSON_stringify (db p1) = JSON_stringify (lastSavedDb p1)).
    { unfold p1, JSON_stringify. simpl.
      now rewrite stringify_parse_stringify. }
    destruct (writeDb_unchanged (db p1) p1 v' Hsame) as [v2 [io2 [Hf2 Hw2]]].
    exists p1, (adapter_write v0 (dbFileName (settings p))
                              (JSON_stringify (db p))),
           (io0 ++ [IoWrite (dbFileName (settings p)) (JSON_stringify (db p))]),
           v2, io2.
    repeat split; auto; try apply Hf2.
    + rewrite writes_app. destruct Hf as [_ [_ [_ ->]]]. reflexivity.
    + apply in_or_app. right. now left.
    + contradiction.
    + contradiction.
Qed.

Lemma flush_twice_writes_once_witness :
  let p := {| settings := DEFAULT_SETTINGS;
              db := [("a.md"%string, Some (at_offset 400000))];
              lastSavedDb := [("a.md"%string, Some (at_offset 125000))];
              lastEphemeralState := None; lastLoadedFileName := None;
              loadedLeafIdList := []; loadingFile := false |} in
  Js.well_formed (db p)
  /\ exists p1 v1 io1 v2 io2,
       flush p empty_vault = Js.Ok (p1, v1, io1)
       /\ flush p1 empty_vault = Js.Ok (p1, v2, io2)
       /\ writes io2 = 0%nat.
Proof.
  intros p.
  assert (Hwf : Js.well_formed (db p)).
  { unfold Js.well_formed. simpl. constructor; [simpl; tauto | constructor]. }
  split; [exact Hwf|].
  destruct (flush_twice_writes_once p empty_vault empty_vault Hwf)
    as [p1 [v1 [io1 [v2 [io2 [H1 [H2 [H3 _]]]]]]]].
  exists p1, v1, io1, v2, io2. auto.
Defined.

(** C4, as claimed, fails.  The cache has a new entry and the write of the
    flush fails: the file is as before, yet the shadow cache has been
    replaced, the two serialized forms match, and the next flush writes
    nothing. *)
Lemma failed_write_still_replaces_shadow :
  let p := {| settings := DEFAULT_SETTINGS;
              db := [("a.md"%string, Some (at_offset 125000))];
              lastSavedDb := [];
              lastEphemeralState := None; lastLoadedFileName := None;
              loadedLeafIdList := []; loadingFile := false |} in
  let v := {| folders := [".obsidian/plugins/remember-scroll-position"%string];
              files := [];
              read_fails := false; write_fails := true;
              mkdir_fails := false |} in
  let p1 := set_lastSavedDb p [("a.md"%string, Some (at_offset 125000))] in
  flush p v
  = Js.Ok (p1, v, [IoWrite (dbFileName DEFAULT_SETTINGS)
                           (Json [("a.md"%string, JNumber 125000)])])
  /\ lastSavedDb p1 <> lastSavedDb p
  /\ flush p1 v = Js.Ok (p1, v, []).
Proof.
  intros p v p1. split; [reflexivity|]. split; [discriminate|reflexivity].
Qed.

(** C4, amended.  When the write of a flush fails, the file keeps its
    content and the cache is not rolled back, but the shadow cache has
    already been replaced by the copy of the cache: the serialized forms
    match from then on, and a next flush issues no write. *)
Theorem failed_write_is_not_retried p v :
  Js.well_formed (db p) ->
  write_fails v = true ->
  JSON_stringify (db p) <> JSON_stringify (lastSavedDb p) ->
  exists p1 v1 io1,
    flush p v = Js.Ok (p1, v1, io1)
    /\ writes io1 = 1%nat
    /\ files v1 = files v
    /\ db p1 = db p
    /\ lastSavedDb p1 = parse_members (stringify_members (db p))
    /\ JSON_stringify (db p1) = JSON_stringify (lastSavedDb p1)
    /\ forall v', exists v2 io2,
         flush p1 v' = Js.Ok (p1, v2, io2) /\ writes io2 = 0%nat.
Proof.
  intros Hwf Hfail Hne. unfold flush.
  destruct (writeDb_changed (db p) p v Hne) as [v0 [io0 [Hf Hw]]].
  destruct Hf as [Hfiles [Hwfail [_ Hio]]].
  set (p1 := set_lastSavedDb p (parse_members (stringify_members (db p)))).
  assert (Hsame : JSON_stringify (db p1) = JSON_stringify (lastSavedDb p1)).
  { unfold p1, JSON_stringify. simpl. now rewrite stringify_parse_stringify. }
  eexists p1, _, _. split; [exact Hw|].
  repeat split; auto.
  - rewrite writes_app, Hio. reflexivity.
  - unfold adapter_write. rewrite Hwfail, Hfail. exact Hfiles.
  - intros v'.
    destruct (writeDb_unchanged (db p1) p1 v' Hsame) as [v2 [io2 [Hf2 Hw2]]].
    exists v2, io2. split; [exact Hw2 | apply Hf2].
Qed.

Lemma failed_write_is_not_retried_witness :
  let p := {| settings := DEFAULT_SETTINGS;
              db := [("a.md"%string, Some (at_offset 125000))];
              lastSavedDb := [];
              lastEphemeralState := None; lastLoadedFileName := None;
              loadedLeafIdList := []; loadingFile := false |} in
  let v := {| folders := []; files := [];
              read_fails := false; write_fails := true;
              mkdir_fails := false |} in
  (Js.well_formed (db p) /\ write_fails v = true
   /\ JSON_stringify (db p) <> JSON_stringify (lastSavedDb p))
  /\ exists p1 v1 io1,
       flush p v = Js.Ok (p1, v1, io1)
       /\ writes io1 = 1%nat
       /\ files v1 = files v.
Proof.
  intros p v.
  assert (Hwf : Js.well_formed (db p)).
  { unfold Js.well_formed. simpl. constructor; [simpl; tauto | constructor]. }
  assert (Hne : JSON_stringify (db p) <> JSON_stringify (lastSavedDb p))
    by discriminate.
  split; [repeat split; auto|].
  destruct (failed_write_is_not_retried p v Hwf eq_refl Hne)
    as [p1 [v1 [io1 [H1 [H2 [H3 _]]]]]].
  exists p1, v1, io1. auto.
Defined.

(** ** Startup *)

Lemma restoreEphemeralState_db w p :
  db (fst (restoreEphemeralState w p)) = db p
  /\ lastSavedDb (fst (restoreEphemeralState w p)) = lastSavedDb p
  /\ settings (fst (restoreEphemeralState w p)) = settings p.
Proof.
  unfold restoreEphemeralState.
  destruct (Js.truthy_string (activeFile w) && loadingFile p
            && Js.string_eq (lastLoadedFileName p) (activeFile w));
    [repeat split|].
  destruct (match mostRecentLeaf w with
            | Some activeLeaf =>
                existsb (String.eqb (leaf_key activeLeaf)) (loadedLeafIdList p)
            | None => false
            end); [repeat split|].
  cbn -[Js.string_eq Js.truthy_string db_get].
  destruct (negb (Js.string_eq (lastLoadedFileName p) (activeFile w)));
    [|repeat split].
  destruct (if Js.truthy_string (activeFile w) then activeFile w else None)
    as [f|]; [|repeat split].
  destruct (db_get (db p) f); repeat split.
Qed.

Lemma readDb_absent s v : file_absent s v -> readDb s v = Js.Ok [].
Proof. unfold file_absent, readDb. now intros ->. Qed.

Lemma readDb_read_error s v :
  read_error s v -> exists e, readDb s v = Js.Throw e.
Proof.
  unfold read_error, readDb. intros [-> [e ->]]. now exists e.
Qed.

Lemma readDb_malformed s v :
  malformed s v -> readDb s v = Js.Throw Js.SyntaxError.
Proof. unfold malformed, readDb. now intros [-> ->]. Qed.

Lemma onload_fields data v1 v2 w :
  db (fst (onload data v1 v2 w))
  = fst (onload_read (loadSettings data) v1 v2)
  /\ lastSavedDb (fst (onload data v1 v2 w))
     = snd (onload_read (loadSettings data) v1 v2).
Proof.
  unfold onload.
  destruct (onload_read (loadSettings data) v1 v2) as [d l].
  destruct (restoreEphemeralState_db w
              {| settings := loadSettings data; db := d; lastSavedDb := l;
                 lastEphemeralState := None; lastLoadedFileName := None;
                 loadedLeafIdList := []; loadingFile := false |})
    as [Hd [Hl _]].
  now rewrite Hd, Hl.
Qed.

(** C8.  Whatever the read of the durable file runs into at startup, be the
    file absent, the read an error or the text not JSON, [onload] runs to
    its end: an absent file reads as the empty mapping, the other two throw
    into the [catch], and in each case the plugin goes on with an empty
    cache and an empty shadow cache. *)
Theorem onload_survives_failed_read data v1 v2 w :
  let s := loadSettings data in
  (read_error s v1 \/ malformed s v1)
  \/ (read_error s v2 \/ malformed s v2)
  \/ (file_absent s v1 /\ file_absent s v2) ->
  (exists p k, onload data v1 v2 w = (p, k)
               /\ db p = [] /\ lastSavedDb p = [])
  /\ (forall v, file_absent s v -> readDb s v = Js.Ok [])
  /\ (forall v, read_error s v \/ malformed s v ->
                 exists e, readDb s v = Js.Throw e).
Proof.
  intros s Hcase.
  assert (Hthrow : forall v, read_error s v \/ malformed s v ->
                             exists e, readDb s v = Js.Throw e).
  { intros v [H|H].
    - now apply readDb_read_error.
    - exists Js.SyntaxError. now apply readDb_malformed. }
  assert (Hread : onload_read s v1 v2 = ([], [])).
  { unfold onload_read. destruct Hcase as [H|[H|[H1 H2]]].
    - destruct (Hthrow v1 H) as [e ->]. reflexivity.
    - destruct (Hthrow v2 H) as [e ->].
      destruct (readDb s v1); reflexivity.
    - now rewrite (readDb_absent s v1 H1), (readDb_absent s v2 H2). }
  split; [|split; [intros v; apply readDb_absent | exact Hthrow]].
  exists (fst (onload data v1 v2 w)), (snd (onload data v1 v2 w)).
  split; [apply surjective_pairing|].
  destruct (onload_fields data v1 v2 w) as [-> ->]. fold s.
  now rewrite Hread.
Qed.

Lemma onload_survives_failed_read_witness :
  let v := no_faults [] [(dbFileName DEFAULT_SETTINGS, NotJson)] in
  malformed (loadSettings None) v
  /\ exists p k, onload None v v (viewing "a.md" 0) = (p, k)
                 /\ db p = [] /\ lastSavedDb p = [].
Proof.
  intros v.
  assert (Hbad : malformed (loadSettings None) v) by (split; reflexivity).
  split; [exact Hbad|].
  exact (proj1 (onload_survives_failed_read None v v (viewing "a.md" 0)
                  (or_introl (or_intror Hbad)))).
Defined.

(** ** Reachable caches *)

Lemma own_In {V} (o : Js.object V) k v : Js.own o k = Some v -> In (k, v) o.
Proof.
  induction o as [|[k' v'] r IH]; simpl; [discriminate|].
  destruct (String.eqb k' k) eqn:E.
  - apply String.eqb_eq in E. intros H. inversion H. subst. now left.
  - intros H. right. now apply IH.
Qed.

Lemma no_nan_assign d k v :
  no_nan d ->
  match v with Some st => scroll st <> Js.Number Js.NaN | None => True end ->
  no_nan (Js.assign d k v).
Proof.
  unfold no_nan. rewrite !Forall_forall. intros Hd Hv e Hin.
  apply In_assign in Hin. destruct Hin as [->|Hin]; [exact Hv | now apply Hd].
Qed.

Lemma no_nan_remove d k : no_nan d -> no_nan (Js.remove d k).
Proof.
  unfold no_nan, Js.remove. rewrite !Forall_forall. intros Hd e Hin.
  apply filter_In in Hin. apply Hd. tauto.
Qed.

Lemma no_nan_db_get d k :
  no_nan d ->
  match db_get d k with
  | Some st => scroll st <> Js.Number Js.NaN
  | None => True
  end.
Proof.
  unfold no_nan, db_get. rewrite Forall_forall. intros Hd.
  destruct (Js.own d k) as [v|] eqn:E; auto.
  apply own_In in E. exact (Hd _ E).
Qed.

Lemma cache_ok_assign d k v :
  cache_ok d ->
  match v with Some st => scroll st <> Js.Number Js.NaN | None => True end ->
  cache_ok (Js.assign d k v).
Proof.
  intros [Hwf Hnan] Hv. split.
  - now apply well_formed_assign.
  - now apply no_nan_assign.
Qed.

Lemma cache_ok_remove d k : cache_ok d -> cache_ok (Js.remove d k).
Proof.
  intros [Hwf Hnan]. split.
  - now apply well_formed_remove.
  - now apply no_nan_remove.
Qed.

Lemma cache_ok_empty : cache_ok [].
Proof. split; constructor. Qed.

Lemma cache_ok_parse_members j : cache_ok (parse_members j).
Proof.
  unfold parse_members. generalize cache_ok_empty.
  generalize (@nil (string * option EphemeralState)) as acc.
  induction j as [|[k x] r IH]; intros acc Hacc; simpl; auto.
  apply IH. apply cache_ok_assign; auto.
  destruct x; simpl; discriminate.
Qed.

Lemma cache_ok_readDb s v d : readDb s v = Js.Ok d -> cache_ok d.
Proof.
  unfold readDb. destruct (adapter_exists v (dbFileName s)).
  - destruct (adapter_read v (dbFileName s)) as [[|j]|e]; simpl;
      intros H; inversion H. apply cache_ok_parse_members.
  - intros H. inversion H. apply cache_ok_empty.
Qed.

Lemma cache_ok_onload data v1 v2 w : cache_ok (db (fst (onload data v1 v2 w))).
Proof.
  destruct (onload_fields data v1 v2 w) as [-> _]. unfold onload_read.
  destruct (readDb (loadSettings data) v1) as [d|e] eqn:E1;
    [|apply cache_ok_empty].
  destruct (readDb (loadSettings data) v2) as [l|e] eqn:E2;
    [|apply cache_ok_empty].
  simpl. now apply cache_ok_readDb in E1.
Qed.

Lemma cache_ok_renameFile file oldPath p :
  cache_ok (db p) -> cache_ok (db (renameFile file oldPath p)).
Proof.
  intros Hok. rewrite db_renameFile.
  apply cache_ok_remove. apply cache_ok_assign; auto.
  apply no_nan_db_get. apply Hok.
Qed.

Lemma isNaN_false_not_nan v : Js.isNaN v = false -> v <> Js.Number Js.NaN.
Proof. intros H ->. discriminate. Qed.

Lemma cache_ok_saveEphemeralState w st p :
  Js.isNaN (scroll st) = false ->
  cache_ok (db p) -> cache_ok (db (saveEphemeralState w st p)).
Proof.
  intros Hnum Hok. unfold saveEphemeralState.
  destruct (Js.truthy_string (activeFile w)
            && Js.string_eq (activeFile w) (lastLoadedFileName p)); auto.
  destruct (activeFile w); auto. simpl.
  apply cache_ok_assign; auto. now apply isNaN_false_not_nan.
Qed.

Lemma cache_ok_checkEphemeralStateChanged w p :
  cache_ok (db p) -> cache_ok (db (checkEphemeralStateChanged w p)).
Proof.
  intros Hok. unfold checkEphemeralStateChanged.
  destruct (negb (Js.truthy_string (activeFile w))
            || negb (Js.truthy_string (lastLoadedFileName p))
            || negb (Js.string_eq (activeFile w) (lastLoadedFileName p))
            || loadingFile p); auto.
  destruct (Js.isNaN (scroll (getEphemeralState w))) eqn:Hnum;
    cbn [negb andb].
  - destruct (lastEphemeralState p); auto.
  - destruct (negb (isEphemeralStatesEquals _ _)).
    + cbn [set_lastEphemeralState db].
      apply cache_ok_saveEphemeralState; auto.
      destruct (lastEphemeralState p); auto.
    + destruct (lastEphemeralState p); auto.
Qed.

Lemma resume_db k w p :
  db (snd (fst (resume k w p))) = db p
  /\ settings (snd (fst (resume k w p))) = settings p.
Proof.
  destruct k; simpl; [destruct (flashingSpan w)|]; split; reflexivity.
Qed.

(** Every cache the plugin can reach is an object none of whose states has
    [NaN] for its scroll. *)
Lemma reachable_cache_ok p ks : reachable p ks -> cache_ok (db p).
Proof.
  induction 1 as [data v1 v2 w | file oldPath p ks _ IH | file p ks _ IH
                  | w p ks _ IH | w p ks _ IH | k w p ks1 ks2 _ IH
                  | v p ks r _ IH Hf].
  - apply cache_ok_onload.
  - now apply cache_ok_renameFile.
  - now apply cache_ok_remove.
  - now apply cache_ok_checkEphemeralStateChanged.
  - now rewrite (proj1 (restoreEphemeralState_db w p)).
  - now rewrite (proj1 (resume_db k w p)).
  - now rewrite (flush_db p v r Hf).
Qed.

(** ** Writing the cache and reading it back *)

Lemma defined_entries_all d :
  Forall (fun e => snd e <> None) d -> defined_entries d = d.
Proof.
  induction 1 as [|[k [st|]] r Hk _ IH]; simpl; auto.
  - now rewrite IH.
  - simpl in Hk. contradiction.
Qed.

Lemma readDb_after_write s v data :
  write_fails v = false -> read_fails v = false ->
  readDb s (adapter_write v (dbFileName s) data) = JSON_parse data.
Proof.
  intros Hw Hr. unfold readDb, adapter_exists, adapter_read, adapter_write.
  rewrite Hw. simpl. unfold Js.has_own.
  rewrite own_assign_same, Hr. reflexivity.
Qed.

(** C7, as claimed, fails.  The plugin starts with no file, on [c.md]; the
    user scrolls to 7, then to 9, which is saved; a rename arrives for
    [a.md], which has no entry, to [b.md].  The cache now has the keys
    [c.md] and [b.md].  The flush writes it, and reading the file back
    gives a mapping with the key [c.md] alone. *)
Lemma undefined_entry_is_not_read_back :
  let p := renameFile {| path := "b.md" |} "a.md"
             (checkEphemeralStateChanged (viewing "c.md" 90000)
                (checkEphemeralStateChanged (viewing "c.md" 70000)
                   (fst (onload None empty_vault empty_vault
                                (viewing "c.md" 0))))) in
  reachable p []
  /\ Js.keys (db p) = ["c.md"%string; "b.md"%string]
  /\ exists p1 v1 io1 d,
       flush p empty_vault = Js.Ok (p1, v1, io1)
       /\ writes io1 = 1%nat
       /\ readDb (settings p) v1 = Js.Ok d
       /\ Js.keys d = ["c.md"%string]
       /\ d <> db p.
Proof.
  intros p. split.
  - exact (reach_rename _ _ _ _
             (reach_scroll _ _ _
                (reach_scroll _ _ _
                   (reach_onload None empty_vault empty_vault
                                 (viewing "c.md" 0))))).
  - split; [reflexivity|].
    eexists _, _, _, _.
    split; [reflexivity|]. split; [reflexivity|].
    split; [reflexivity|]. split; [reflexivity|discriminate].
Qed.

(** C7, amended.  For a reachable cache: when the flush writes it and the
    write goes through, reading the file back gives the keys of the cache
    that hold a state, in the same order, each with an equal state; keys
    that hold [undefined] are not read back.  Reading any path gives the
    same in both, and the two are equal when no key holds [undefined]. *)
Theorem flush_then_read_back p ks v :
  reachable p ks ->
  write_fails v = false ->
  read_fails v = false ->
  JSON_stringify (db p) <> JSON_stringify (lastSavedDb p) ->
  exists p1 v1 io1,
    flush p v = Js.Ok (p1, v1, io1)
    /\ readDb (settings p) v1 = Js.Ok (defined_entries (db p))
    /\ (forall k, db_get (defined_entries (db p)) k = db_get (db p) k)
    /\ (Forall (fun e => snd e <> None) (db p) ->
        readDb (settings p) v1 = Js.Ok (db p)).
Proof.
  intros Hreach Hw Hr Hne.
  destruct (reachable_cache_ok p ks Hreach) as [Hwf Hnan].
  unfold flush.
  destruct (writeDb_changed (db p) p v Hne)
    as [v0 [io0 [[_ [Hw0 [Hr0 _]]] Hflush]]].
  assert (Hread : readDb (settings p)
                    (adapter_write v0 (dbFileName (settings p))
                                   (JSON_stringify (db p)))
                  = Js.Ok (defined_entries (db p))).
  { rewrite readDb_after_write by congruence.
    simpl. now rewrite parse_stringify_members. }
  eexists _, _, _. split; [exact Hflush|].
  split; [exact Hread|]. split.
  - intros k. now apply db_get_defined_entries.
  - intros Hall. rewrite Hread. now rewrite defined_entries_all.
Qed.

Lemma flush_then_read_back_witness :
  let p := checkEphemeralStateChanged (viewing "c.md" 90000)
             (checkEphemeralStateChanged (viewing "c.md" 70000)
                (fst (onload None empty_vault empty_vault
                             (viewing "c.md" 0)))) in
  (reachable p [] /\ write_fails empty_vault = false
   /\ read_fails empty_vault = false
   /\ JSON_stringify (db p) <> JSON_stringify (lastSavedDb p))
  /\ exists p1 v1 io1,
       flush p empty_vault = Js.Ok (p1, v1, io1)
       /\ readDb (settings p) v1 = Js.Ok (db p).
Proof.
  intros p.
  assert (Hreach : reachable p []).
  { exact (reach_scroll _ _ _
             (reach_scroll _ _ _
                (reach_onload None empty_vault empty_vault
                              (viewing "c.md" 0)))). }
  assert (Hne : JSON_stringify (db p) <> JSON_stringify (lastSavedDb p))
    by discriminate.
  split; [repeat split; auto|].
  destruct (flush_then_read_back p [] empty_vault Hreach eq_refl eq_refl Hne)
    as [p1 [v1 [io1 [H1 [_ [_ H4]]]]]].
  exists p1, v1, io1. split; [exact H1|].
  apply H4. repeat constructor; discriminate.
Defined.

(** * Further properties of the code *)

(** ** The throttle of scroll notifications *)

Lemma window_ok_setTimeout win cb ms now :
  window_ok win -> window_ok (fst (window_setTimeout win cb ms now)).
Proof.
  intros [Hpos [Hall Hnd]]. unfold window_ok. simpl. split; [lia|]. split.
  - apply Forall_app. split.
    + eapply Forall_impl; [|exact Hall]. simpl. intros t Ht. lia.
    + constructor; [simpl; lia | constructor].
  - rewrite map_app. simpl. apply NoDup_app; auto.
    + constructor; [simpl; tauto | constructor].
    + intros x Hx [Hx'|[]]. subst x. apply in_map_iff in Hx.
      destruct Hx as [t [Hid Hin]]. rewrite Forall_forall in Hall.
      specialize (Hall t Hin). lia.
Qed.

Lemma window_ok_clearTimeout win id :
  window_ok win -> window_ok (window_clearTimeout win id).
Proof.
  intros [Hpos [Hall Hnd]]. unfold window_ok. simpl. split; [exact Hpos|].
  split.
  - rewrite Forall_forall in *. intros t Ht. apply filter_In in Ht.
    apply Hall. tauto.
  - clear Hall. induction (timers win) as [|t l IH]; simpl; auto.
    inversion Hnd as [|? ? Hn Hl]; subst.
    destruct (negb (timer_id t =? id)); simpl; auto.
    constructor; auto. intros Hin. apply Hn. apply in_map_iff in Hin.
    destruct Hin as [x [Hx Hin]]. apply filter_In in Hin.
    apply in_map_iff. exists x. tauto.
Qed.

Lemma throttle_ok_clear r id :
  throttle_ok r ->
  throttle_ok {| plugin := plugin r;
                 scrollThrottleTimer := scrollThrottleTimer r;
                 window := window_clearTimeout (window r) id |}.
Proof.
  intros [Hwin Hthr]. split; simpl.
  - now apply window_ok_clearTimeout.
  - intros t Hin. apply filter_In in Hin. apply Hthr. tauto.
Qed.

(** Once the field has been looked at and its timer cleared, no throttle
    timer is pending. *)
Lemma no_throttle_after_clear r :
  throttle_ok r ->
  forall t,
    In t (timers (match scrollThrottleTimer r with
                  | Some id => if truthy_timer (Some id)
                               then window_clearTimeout (window r) id
                               else window r
                  | None => window r
                  end)) ->
    is_throttle t = false.
Proof.
  intros [[_ [Hall _]] Hthr] t Hin.
  destruct (is_throttle t) eqn:Ht; auto. exfalso.
  rewrite Forall_forall in Hall.
  destruct (scrollThrottleTimer r) as [id|] eqn:Ef.
  - destruct (truthy_timer (Some id)) eqn:Etr.
    + simpl in Hin. apply filter_In in Hin. destruct Hin as [Hin Hid].
      specialize (Hthr t Hin Ht). inversion Hthr. subst id.
      rewrite Z.eqb_refl in Hid. discriminate.
    + specialize (Hthr t Hin Ht). inversion Hthr. subst id.
      specialize (Hall t Hin). simpl in Etr.
      apply negb_false_iff in Etr. apply Z.eqb_eq in Etr. lia.
  - specialize (Hthr t Hin Ht). discriminate.
Qed.

Lemma window_ok_after_clear r :
  throttle_ok r ->
  window_ok (match scrollThrottleTimer r with
             | Some id => if truthy_timer (Some id)
                          then window_clearTimeout (window r) id
                          else window r
             | None => window r
             end).
Proof.
  intros [Hwin _].
  destruct (scrollThrottleTimer r) as [id|]; auto.
  destruct (truthy_timer (Some id)); auto.
  now apply window_ok_clearTimeout.
Qed.

Lemma throttle_ok_onScrollEvent now r :
  throttle_ok r -> throttle_ok (onScrollEvent now r).
Proof.
  intros Hok. unfold onScrollEvent. split.
  - apply (window_ok_setTimeout _ ThrottleElapsed 50 now).
    now apply window_ok_after_clear.
  - simpl. intros t Hin Ht. apply in_app_or in Hin.
    destruct Hin as [Hin|[<-|[]]].
    + rewrite (no_throttle_after_clear r Hok t Hin) in Ht. discriminate.
    + destruct (scrollThrottleTimer r) as [id|]; [|reflexivity].
      destruct (truthy_timer (Some id)); reflexivity.
Qed.

Lemma throttle_ok_add r cb ms now :
  cb <> ThrottleElapsed ->
  throttle_ok r ->
  throttle_ok {| plugin := plugin r;
                 scrollThrottleTimer := scrollThrottleTimer r;
                 window := fst (window_setTimeout (window r) cb ms now) |}.
Proof.
  intros Hcb [Hwin Hthr]. split.
  - now apply window_ok_setTimeout.
  - simpl. intros t Hin Ht. apply in_app_or in Hin.
    destruct Hin as [Hin|[<-|[]]]; auto.
    unfold is_throttle in Ht. simpl in Ht. destruct cb; congruence.
Qed.

Lemma throttle_ok_drop r id :
  throttle_ok r ->
  (forall t, In t (timers (window r)) -> is_throttle t = true ->
             timer_id t = id) ->
  forall p,
    throttle_ok {| plugin := p; scrollThrottleTimer := None;
                   window := window_clearTimeout (window r) id |}.
Proof.
  intros [Hwin Hthr] Hid p. split.
  - now apply window_ok_clearTimeout.
  - simpl. intros t Hin Ht. apply filter_In in Hin. destruct Hin as [Hin Hne].
    rewrite (Hid t Hin Ht), Z.eqb_refl in Hne. discriminate.
Qed.

Lemma throttle_ok_onunload r : throttle_ok r -> throttle_ok (onunload r).
Proof.
  intros Hok. unfold onunload.
  destruct (scrollThrottleTimer r) as [id|] eqn:Ef; auto.
  destruct (truthy_timer (Some id)); auto.
  apply throttle_ok_drop; auto.
  intros t Hin Ht. destruct Hok as [_ Hthr].
  specialize (Hthr t Hin Ht). congruence.
Qed.

Lemma throttle_ok_fire t w now r :
  throttle_ok r -> In t (timers (window r)) -> throttle_ok (fire t w now r).
Proof.
  intros Hok Hin. unfold fire.
  destruct (timer_callback t) eqn:Ecb.
  - apply throttle_ok_drop; auto.
    intros t' Hin' Ht'. destruct Hok as [_ Hthr].
    assert (Ht : is_throttle t = true) by (unfold is_throttle; now rewrite Ecb).
    specialize (Hthr t Hin Ht) as H1. specialize (Hthr t' Hin' Ht') as H2.
    congruence.
  - apply throttle_ok_onScrollEvent. now apply throttle_ok_clear.
  - now apply throttle_ok_clear.
Qed.

Lemma running_throttle_ok r : running r -> throttle_ok r.
Proof.
  induction 1 as [p win Hwin Hfor | now r _ IH | key now r _ IH
                  | t w now r _ IH Hin _ | ms now r _ IH | f r _ IH
                  | r _ IH].
  - split; auto. simpl. intros t Hin Ht.
    rewrite Forall_forall in Hfor. specialize (Hfor t Hin).
    unfold is_throttle in Ht. rewrite Hfor in Ht. discriminate.
  - now apply throttle_ok_onScrollEvent.
  - unfold onKeyboardEvent. destruct (existsb _ scrollKeys); auto.
    apply throttle_ok_add; [discriminate | exact IH].
  - now apply throttle_ok_fire.
  - apply throttle_ok_add; [discriminate | exact IH].
  - destruct IH as [Hwin Hthr]. split; auto.
  - now apply throttle_ok_onunload.
Qed.

Lemma filter_none {A} (f : A -> bool) (l : list A) :
  (forall x, In x l -> f x = false) -> filter f l = [].
Proof.
  induction l as [|a l IH]; simpl; intros H; auto.
  rewrite (H a) by now left. apply IH. intros x Hx. apply H. now right.
Qed.

Lemma same_id_same_timer (l : list Timer) a b :
  NoDup (map timer_id l) -> In a l -> In b l ->
  timer_id a = timer_id b -> a = b.
Proof.
  induction l as [|x l IH]; simpl; intros Hnd Ha Hb Hid; [tauto|].
  inversion Hnd as [|? ? Hn Hl]; subst.
  destruct Ha as [->|Ha], Hb as [->|Hb]; auto.
  - exfalso. apply Hn. rewrite Hid. now apply in_map.
  - exfalso. apply Hn. rewrite <- Hid. now apply in_map.
Qed.

Lemma field_ok_onScrollEvent now r : field_ok (onScrollEvent now r).
Proof.
  unfold onScrollEvent, field_ok. simpl. intros id Hid. inversion Hid.
  eexists. split; [apply in_or_app; right; left; reflexivity|].
  split; reflexivity.
Qed.

Lemma field_ok_add r cb ms now :
  field_ok r ->
  field_ok {| plugin := plugin r;
              scrollThrottleTimer := scrollThrottleTimer r;
              window := fst (window_setTimeout (window r) cb ms now) |}.
Proof.
  intros Hf id Hid. destruct (Hf id Hid) as [t [Hin Ht]].
  exists t. split; [simpl; apply in_or_app; now left | exact Ht].
Qed.

Lemma field_ok_fire t w now r :
  throttle_ok r -> field_ok r -> In t (timers (window r)) ->
  field_ok (fire t w now r).
Proof.
  intros [[_ [_ Hnd]] _] Hf Hin. unfold fire.
  destruct (timer_callback t) eqn:Ecb.
  - intros id Hid. discriminate.
  - apply field_ok_onScrollEvent.
  - intros id Hid. simpl in Hid. destruct (Hf id Hid) as [t' [Hin' [Hid' Ht']]].
    exists t'. split; [|tauto]. simpl. apply filter_In. split; auto.
    apply negb_true_iff. apply Z.eqb_neq. intros Heq.
    assert (t' = t) by (eapply same_id_same_timer; eauto).
    subst t'. unfold is_throttle in Ht'. rewrite Ecb in Ht'. discriminate.
Qed.

Lemma running_field_ok r : running r -> field_ok r.
Proof.
  induction 1 as [p win Hwin Hfor | now r _ IH | key now r _ IH
                  | t w now r Hrun IH Hin _ | ms now r _ IH | f r _ IH
                  | r _ IH].
  - intros id Hid. discriminate.
  - apply field_ok_onScrollEvent.
  - unfold onKeyboardEvent. destruct (existsb _ scrollKeys); auto.
    now apply field_ok_add.
  - apply field_ok_fire; auto. now apply running_throttle_ok.
  - now apply field_ok_add.
  - exact IH.
  - unfold onunload. destruct (scrollThrottleTimer r) as [id|] eqn:Ef; auto.
    destruct (truthy_timer (Some id)); [|exact IH].
    intros id' Hid'. discriminate.
Qed.

(** Clearing the timer the field names takes away no timer of another
    kind. *)
Lemma others_after_clear r :
  throttle_ok r -> field_ok r ->
  filter (fun t => negb (is_throttle t))
         (timers (match scrollThrottleTimer r with
                  | Some id => if truthy_timer (Some id)
                               then window_clearTimeout (window r) id
                               else window r
                  | None => window r
                  end))
  = filter (fun t => negb (is_throttle t)) (timers (window r)).
Proof.
  intros [[_ [_ Hnd]] _] Hf.
  destruct (scrollThrottleTimer r) as [id|] eqn:Ef; auto.
  destruct (truthy_timer (Some id)); auto.
  destruct (Hf id Ef) as [t0 [Hin0 [Hid0 Ht0]]]. simpl.
  assert (Hkeep : forall t, In t (timers (window r)) ->
                            negb (is_throttle t) = true ->
                            negb (timer_id t =? id) = true).
  { intros t Hin Ht. apply negb_true_iff. apply Z.eqb_neq. intros Heq.
    assert (t = t0) by (eapply same_id_same_timer; eauto; congruence).
    subst t. rewrite Ht0 in Ht. discriminate. }
  clear Hin0 Hnd. induction (timers (window r)) as [|t l IH]; simpl; auto.
  destruct (negb (is_throttle t)) eqn:Et.
  - rewrite (Hkeep t) by (auto; now left). simpl. rewrite Et. f_equal.
    apply IH. intros x Hx. apply Hkeep. now right.
  - destruct (negb (timer_id t =? id)); simpl; [rewrite Et|];
      apply IH; intros x Hx; apply Hkeep; now right.
Qed.

Lemma restart_from_ok now r :
  throttle_ok r -> field_ok r ->
  filter is_throttle (timers (window (onScrollEvent now r)))
  = [{| timer_id := next_timer_id (window r);
        timer_due := now + 50;
        timer_callback := ThrottleElapsed |}]
  /\ scrollThrottleTimer (onScrollEvent now r)
     = Some (next_timer_id (window r))
  /\ filter (fun t => negb (is_throttle t))
            (timers (window (onScrollEvent now r)))
     = filter (fun t => negb (is_throttle t)) (timers (window r))
  /\ plugin (onScrollEvent now r) = plugin r.
Proof.
  intros Hok Hf.
  set (win := match scrollThrottleTimer r with
              | Some id => if truthy_timer (Some id)
                           then window_clearTimeout (window r) id
                           else window r
              | None => window r
              end).
  assert (Htimers : timers (window (onScrollEvent now r))
                    = timers win ++ [{| timer_id := next_timer_id win;
                                        timer_due := now + 50;
                                        timer_callback := ThrottleElapsed |}])
    by reflexivity.
  assert (Hfield : scrollThrottleTimer (onScrollEvent now r)
                   = Some (next_timer_id win)) by reflexivity.
  assert (Hnext : next_timer_id win = next_timer_id (window r)).
  { unfold win. destruct (scrollThrottleTimer r) as [id|]; auto.
    destruct (truthy_timer (Some id)); auto. }
  rewrite Htimers, Hfield, Hnext, !filter_app.
  unfold win at 1.
  rewrite (filter_none is_throttle _ (no_throttle_after_clear r Hok)).
  unfold win.
  rewrite (others_after_clear r Hok Hf). simpl. rewrite app_nil_r.
  repeat split.
Qed.

(** X1.  A scroll notification, wherever the plugin stands: afterwards
    exactly one throttle timer is pending, the new one, due 50 ms after
    the notification, and the field names it; the timers of any other kind
    and the plugin fields are as before. *)
Theorem onScrollEvent_restarts_throttle now r :
  running r ->
  filter is_throttle (timers (window (onScrollEvent now r)))
  = [{| timer_id := next_timer_id (window r);
        timer_due := now + 50;
        timer_callback := ThrottleElapsed |}]
  /\ scrollThrottleTimer (onScrollEvent now r)
     = Some (next_timer_id (window r))
  /\ filter (fun t => negb (is_throttle t))
            (timers (window (onScrollEvent now r)))
     = filter (fun t => negb (is_throttle t)) (timers (window r))
  /\ plugin (onScrollEvent now r) = plugin r.
Proof.
  intros Hrun. apply restart_from_ok.
  - now apply running_throttle_ok.
  - now apply running_field_ok.
Qed.

Lemma onScrollEvent_restarts_throttle_witness :
  let r := onScrollEvent 1000
             {| plugin := fst (onload None empty_vault empty_vault
                                      (viewing "a.md" 0));
                scrollThrottleTimer := None;
                window := {| timers := []; next_timer_id := 1 |} |} in
  running r
  /\ filter is_throttle (timers (window (onScrollEvent 1020 r)))
     = [{| timer_id := 2; timer_due := 1070;
           timer_callback := ThrottleElapsed |}].
Proof.
  intros r.
  assert (Hrun : running r).
  { apply run_scroll. apply run_start; [|constructor].
    split; [simpl; lia|]. split; constructor. }
  split; [exact Hrun|].
  exact (proj1 (onScrollEvent_restarts_throttle 1020 r Hrun)).
Defined.

Lemma at_most_one_named (l : list Timer) (f : Timer -> bool) c :
  NoDup (map timer_id l) ->
  (forall t, In t l -> f t = true -> timer_id t = c) ->
  (List.length (filter f l) <= 1)%nat.
Proof.
  induction l as [|a l IH]; simpl; intros Hnd Hc; [lia|].
  inversion Hnd as [|? ? Hn Hl]; subst.
  destruct (f a) eqn:Ea.
  - rewrite (filter_none f l); [simpl; lia|].
    intros x Hx. destruct (f x) eqn:Ex; auto. exfalso. apply Hn.
    rewrite (Hc a) by auto. rewrite <- (Hc x) by auto. now apply in_map.
  - apply IH; auto.
Qed.

(** X2.  At no point of a run is more than one throttle timer pending, and
    none is while the field is [null].  The bound is on throttle timers
    alone; pending key timers are not counted. *)
Theorem at_most_one_throttle_pending r :
  running r ->
  (List.length (filter is_throttle (timers (window r))) <= 1)%nat
  /\ (scrollThrottleTimer r = None ->
      filter is_throttle (timers (window r)) = []).
Proof.
  intros Hrun. destruct (running_throttle_ok r Hrun) as [[_ [_ Hnd]] Hthr].
  split.
  - destruct (scrollThrottleTimer r) as [id|] eqn:Ef.
    + apply (at_most_one_named _ _ id); auto.
      intros t Hin Ht. specialize (Hthr t Hin Ht). congruence.
    + rewrite filter_none; [simpl; lia|].
      intros t Hin. destruct (is_throttle t) eqn:Ht; auto.
      specialize (Hthr t Hin Ht). discriminate.
  - intros Hnone. apply filter_none.
    intros t Hin. destruct (is_throttle t) eqn:Ht; auto.
    specialize (Hthr t Hin Ht). congruence.
Qed.

Lemma at_most_one_throttle_pending_witness :
  let r := onScrollEvent 1020
             (onKeyboardEvent "PageDown" 1010
                (onScrollEvent 1000
                   {| plugin := fst (onload None empty_vault empty_vault
                                            (viewing "a.md" 0));
                      scrollThrottleTimer := None;
                      window := {| timers := []; next_timer_id := 1 |} |})) in
  running r
  /\ (List.length (filter is_throttle (timers (window r))) <= 1)%nat.
Proof.
  intros r.
  assert (Hrun : running r).
  { apply run_scroll, run_key, run_scroll. apply run_start; [|constructor].
    split; [simpl; lia|]. split; constructor. }
  split; [exact Hrun|].
  exact (proj1 (at_most_one_throttle_pending r Hrun)).
Defined.

(** X3.  When the throttle timer fires, the evaluation runs once, on the
    workspace of that moment; the field is [null] again and no throttle
    timer is left pending. *)
Theorem throttle_fires_once t w now r :
  running r ->
  In t (timers (window r)) ->
  is_throttle t = true ->
  plugin (fire t w now r) = checkEphemeralStateChanged w (plugin r)
  /\ scrollThrottleTimer (fire t w now r) = None
  /\ filter is_throttle (timers (window (fire t w now r))) = [].
Proof.
  intros Hrun Hin Ht.
  pose proof (throttle_ok_fire t w now r (running_throttle_ok r Hrun) Hin)
    as [_ Hthr].
  unfold is_throttle in Ht.
  assert (Hfield : scrollThrottleTimer (fire t w now r) = None).
  { unfold fire. destruct (timer_callback t); try discriminate. reflexivity. }
  split; [|split; [exact Hfield|]].
  - unfold fire. destruct (timer_callback t); try discriminate. reflexivity.
  - apply filter_none. intros x Hx.
    destruct (is_throttle x) eqn:Ex; auto.
    specialize (Hthr x Hx Ex). congruence.
Qed.

Lemma throttle_fires_once_witness :
  let r := onScrollEvent 1000
             {| plugin := fst (onload None empty_vault empty_vault
                                      (viewing "a.md" 0));
                scrollThrottleTimer := None;
                window := {| timers := []; next_timer_id := 1 |} |} in
  let t := {| timer_id := 1; timer_due := 1050;
              timer_callback := ThrottleElapsed |} in
  (running r /\ In t (timers (window r)))
  /\ scrollThrottleTimer (fire t (viewing "a.md" 70000) 1050 r) = None.
Proof.
  intros r t.
  assert (Hrun : running r).
  { apply run_scroll. apply run_start; [|constructor].
    split; [simpl; lia|]. split; constructor. }
  assert (Hin : In t (timers (window r))) by (left; reflexivity).
  split; [split; assumption|].
  exact (proj1 (proj2 (throttle_fires_once t (viewing "a.md" 70000) 1050 r
                         Hrun Hin eq_refl))).
Defined.

Lemma field_ok_clear_other r t :
  throttle_ok r -> field_ok r ->
  In t (timers (window r)) -> is_throttle t = false ->
  field_ok {| plugin := plugin r;
              scrollThrottleTimer := scrollThrottleTimer r;
              window := window_clearTimeout (window r) (timer_id t) |}.
Proof.
  intros [[_ [_ Hnd]] _] Hf Hin Ht id Hid. simpl in Hid.
  destruct (Hf id Hid) as [t' [Hin' [Hid' Ht']]].
  exists t'. split; [|tauto]. simpl. apply filter_In. split; auto.
  apply negb_true_iff. apply Z.eqb_neq. intros Heq.
  assert (t' = t) by (eapply same_id_same_timer; eauto).
  subst t'. congruence.
Qed.

(** X4.  A key timer that fires goes through [onScrollEvent]: the throttle
    timer that was pending is cancelled and a new one starts, due 50 ms
    after the key timer fired; nothing is evaluated yet. *)
Theorem key_timer_restarts_throttle t w now r :
  running r ->
  In t (timers (window r)) ->
  timer_callback t = KeySettled ->
  filter is_throttle (timers (window (fire t w now r)))
  = [{| timer_id := next_timer_id (window r);
        timer_due := now + 50;
        timer_callback := ThrottleElapsed |}]
  /\ scrollThrottleTimer (fire t w now r) = Some (next_timer_id (window r))
  /\ plugin (fire t w now r) = plugin r.
Proof.
  intros Hrun Hin Hcb.
  pose proof (running_throttle_ok r Hrun) as Hok.
  pose proof (running_field_ok r Hrun) as Hf.
  assert (Ht : is_throttle t = false) by (unfold is_throttle; now rewrite Hcb).
  destruct (restart_from_ok now _ (throttle_ok_clear r (timer_id t) Hok)
              (field_ok_clear_other r t Hok Hf Hin Ht))
    as [H1 [H2 [_ H4]]].
  unfold fire. rewrite Hcb. auto.
Qed.

Lemma key_timer_restarts_throttle_witness :
  let r := onKeyboardEvent "ArrowDown" 1010
             (onScrollEvent 1000
                {| plugin := fst (onload None empty_vault empty_vault
                                         (viewing "a.md" 0));
                   scrollThrottleTimer := None;
                   window := {| timers := []; next_timer_id := 1 |} |}) in
  let t := {| timer_id := 2; timer_due := 1020;
              timer_callback := KeySettled |} in
  (running r /\ In t (timers (window r)))
  /\ filter is_throttle
            (timers (window (fire t (viewing "a.md" 70000) 1020 r)))
     = [{| timer_id := 3; timer_due := 1070;
           timer_callback := ThrottleElapsed |}].
Proof.
  intros r t.
  assert (Hrun : running r).
  { apply run_key, run_scroll. apply run_start; [|constructor].
    split; [simpl; lia|]. split; constructor. }
  assert (Hin : In t (timers (window r))) by (right; left; reflexivity).
  split; [split; assumption|].
  exact (proj1 (key_timer_restarts_throttle t (viewing "a.md" 70000) 1020 r
                  Hrun Hin eq_refl)).
Defined.

(** X5.  After [onunload] no throttle timer is pending, so no evaluation
    is left to run from a scroll; the key timers and the timers of others
    stay pending, and the plugin fields are untouched. *)
Theorem onunload_cancels_throttle r :
  running r ->
  filter is_throttle (timers (window (onunload r))) = []
  /\ filter (fun t => negb (is_throttle t)) (timers (window (onunload r)))
     = filter (fun t => negb (is_throttle t)) (timers (window r))
  /\ plugin (onunload r) = plugin r.
Proof.
  intros Hrun.
  pose proof (running_throttle_ok r Hrun) as Hok.
  pose proof (running_field_ok r Hrun) as Hf.
  assert (Hwin : window (onunload r)
                 = match scrollThrottleTimer r with
                   | Some id => if truthy_timer (Some id)
                                then window_clearTimeout (window r) id
                                else window r
                   | None => window r
                   end).
  { unfold onunload. destruct (scrollThrottleTimer r) as [id|]; auto.
    destruct (truthy_timer (Some id)); auto. }
  rewrite Hwin. split; [|split].
  - apply filter_none. apply no_throttle_after_clear. exact Hok.
  - now apply others_after_clear.
  - unfold onunload. destruct (scrollThrottleTimer r) as [id|]; auto.
    destruct (truthy_timer (Some id)); auto.
Qed.

Lemma onunload_cancels_throttle_witness :
  let r := onKeyboardEvent "End" 1010
             (onScrollEvent 1000
                {| plugin := fst (onload None empty_vault empty_vault
                                         (viewing "a.md" 0));
                   scrollThrottleTimer := None;
                   window := {| timers := []; next_timer_id := 1 |} |}) in
  running r
  /\ filter is_throttle (timers (window (onunload r))) = [].
Proof.
  intros r.
  assert (Hrun : running r).
  { apply run_key, run_scroll. apply run_start; [|constructor].
    split; [simpl; lia|]. split; constructor. }
  split; [exact Hrun|].
  exact (proj1 (onunload_cancels_throttle r Hrun)).
Defined.

(** ** Settings *)

(** X6.  Whatever was saved, the flush interval that [loadSettings] returns
    is the saved one (5000 when none is saved) raised to 5000 if it is
    below; the file name and the delay are taken as saved, the delay with
    no bound applied, and default when not saved. *)
Theorem loadSettings_floor data :
  let saved {A} (f : SettingsData -> option A) : option A :=
    match data with Some d => f d | None => None end in
  SAFE_DB_FLUSH_INTERVAL <= saveTimer (loadSettings data)
  /\ saveTimer (loadSettings data)
     = Z.max SAFE_DB_FLUSH_INTERVAL
             match saved data_saveTimer with
             | Some t => t
             | None => SAFE_DB_FLUSH_INTERVAL
             end
  /\ dbFileName (loadSettings data)
     = match saved data_dbFileName with
       | Some f => f
       | None => dbFileName DEFAULT_SETTINGS
       end
  /\ delayAfterFileOpening (loadSettings data)
     = match saved data_delayAfterFileOpening with
       | Some t => t
       | None => 100
       end.
Proof.
  unfold loadSettings, SAFE_DB_FLUSH_INTERVAL. simpl.
  destruct data as [[f d t]|]; simpl.
  - destruct t as [t|]; simpl.
    + destruct (Z.ltb_spec t 5000); simpl; repeat split;
        try lia; reflexivity.
    + repeat split; try lia; reflexivity.
  - repeat split; try lia; reflexivity.
Qed.

(** ** Comparing two states, again *)

(** X7.  [isEphemeralStatesEquals] is an equivalence on states: it holds of
    a state and itself, in both orders or in none, and through a chain. *)
Theorem isEphemeralStatesEquals_equivalence :
  (forall a, isEphemeralStatesEquals a a = true)
  /\ (forall a b, isEphemeralStatesEquals a b = isEphemeralStatesEquals b a)
  /\ (forall a b c, isEphemeralStatesEquals a b = true ->
                    isEphemeralStatesEquals b c = true ->
                    isEphemeralStatesEquals a c = true).
Proof.
  assert (Hrefl : forall a, isEphemeralStatesEquals a a = true).
  { intros a. apply isEphemeralStatesEquals_true.
    destruct (Js.truthy (scroll a)); auto. }
  assert (Himp : forall a b, isEphemeralStatesEquals a b = true ->
                             isEphemeralStatesEquals b a = true).
  { intros a b H. apply isEphemeralStatesEquals_true in H.
    apply isEphemeralStatesEquals_true.
    destruct H as [[H1 H2]|[H1 H2]]; [left; auto|].
    right. rewrite <- H2. auto. }
  split; [exact Hrefl|]. split.
  - intros a b.
    destruct (isEphemeralStatesEquals a b) eqn:Eab,
             (isEphemeralStatesEquals b a) eqn:Eba; auto.
    + apply Himp in Eab. congruence.
    + apply Himp in Eba. congruence.
  - intros a b c Hab Hbc.
    apply isEphemeralStatesEquals_true in Hab.
    apply isEphemeralStatesEquals_true in Hbc.
    apply isEphemeralStatesEquals_true.
    destruct Hab as [[A1 A2]|[A1 A2]], Hbc as [[B1 B2]|[B1 B2]].
    + left; auto.
    + congruence.
    + rewrite <- A2 in B1. congruence.
    + right. split; auto. congruence.
Qed.

Lemma isEphemeralStatesEquals_equivalence_witness :
  isEphemeralStatesEquals (at_offset 125000) (at_offset 125000) = true
  /\ isEphemeralStatesEquals (at_offset 0) {| scroll := Js.Null |} = true.
Proof.
  destruct isEphemeralStatesEquals_equivalence as [Hrefl [_ Htrans]].
  split; [apply Hrefl|].
  apply (Htrans _ {| scroll := Js.Undefined |}); reflexivity.
Defined.

(** ** Change detection, again *)

Lemma string_eq_true a b : Js.string_eq a b = true <-> a = b.
Proof.
  destruct a as [x|], b as [y|]; simpl; split; intros H;
    try discriminate; auto.
  - apply String.eqb_eq in H. now subst.
  - inversion H. apply String.eqb_refl.
Qed.

(** The evaluation is a no-op when no document is active, when the active
    one is not the loaded one, or while a restore is in progress. *)
Lemma check_blocked w p :
  activeFile w = None \/ activeFile w = Some ""%string
  \/ activeFile w <> lastLoadedFileName p \/ loadingFile p = true ->
  checkEphemeralStateChanged w p = p.
Proof.
  intros H. unfold checkEphemeralStateChanged.
  assert (Hg : negb (Js.truthy_string (activeFile w))
               || negb (Js.truthy_string (lastLoadedFileName p))
               || negb (Js.string_eq (activeFile w) (lastLoadedFileName p))
               || loadingFile p = true).
  { destruct H as [H|[H|[H|H]]].
    - now rewrite H.
    - now rewrite H.
    - destruct (Js.string_eq (activeFile w) (lastLoadedFileName p)) eqn:E.
      + apply string_eq_true in E. contradiction.
      + simpl. now rewrite orb_true_r.
    - rewrite H. now rewrite orb_true_r. }
  now rewrite Hg.
Qed.

(** Otherwise it compares the sample with the baseline. *)
Lemma check_open w p f :
  f <> ""%string ->
  activeFile w = Some f ->
  lastLoadedFileName p = Some f ->
  loadingFile p = false ->
  checkEphemeralStateChanged w p
  = match lastEphemeralState p with
    | None => set_lastEphemeralState p (Some (getEphemeralState w))
    | Some last =>
        if negb (Js.isNaN (scroll (getEphemeralState w)))
           && negb (isEphemeralStatesEquals (getEphemeralState w) last)
        then set_lastEphemeralState
               (set_db p (Js.assign (db p) f (Some (getEphemeralState w))))
               (Some (getEphemeralState w))
        else p
    end.
Proof.
  intros Hf Hact Hlast Hload. apply truthy_string_some in Hf.
  unfold checkEphemeralStateChanged, saveEphemeralState.
  rewrite Hact, Hlast, Hload, Hf. simpl Js.string_eq.
  rewrite String.eqb_refl. cbn [negb orb].
  destruct (lastEphemeralState p) as [last|].
  - rewrite Hlast, String.eqb_refl. reflexivity.
  - assert (Hrefl : isEphemeralStatesEquals (getEphemeralState w)
                                            (getEphemeralState w) = true).
    { apply isEphemeralStatesEquals_true.
      destruct (Js.truthy (scroll (getEphemeralState w))); auto. }
    now rewrite Hrefl, andb_false_r.
Qed.

Lemma check_blocked_or_open w p :
  (activeFile w = None \/ activeFile w = Some ""%string
   \/ activeFile w <> lastLoadedFileName p \/ loadingFile p = true)
  \/ exists f, f <> ""%string /\ activeFile w = Some f
               /\ lastLoadedFileName p = Some f /\ loadingFile p = false.
Proof.
  destruct (activeFile w) as [f|] eqn:Ea; [|left; now left].
  destruct (string_dec f "") as [->|Hf]; [left; right; now left|].
  destruct (lastLoadedFileName p) as [g|] eqn:El;
    [|left; right; right; left; discriminate].
  destruct (string_dec f g) as [->|Hfg];
    [|left; right; right; left; congruence].
  destruct (loadingFile p) eqn:Eload; [left; now repeat right|].
  right. exists g. auto.
Qed.

(** X8.  With no markdown view active the sample is [NaN], and the
    evaluation leaves the cache as it is. *)
Theorem checkEphemeralStateChanged_no_view w p :
  activeMarkdownView w = None ->
  Js.isNaN (scroll (getEphemeralState w)) = true
  /\ db (checkEphemeralStateChanged w p) = db p.
Proof.
  intros Hview.
  assert (Hnan : Js.isNaN (scroll (getEphemeralState w)) = true).
  { unfold getEphemeralState. now rewrite Hview. }
  split; [exact Hnan|]. unfold checkEphemeralStateChanged.
  destruct (negb (Js.truthy_string (activeFile w))
            || negb (Js.truthy_string (lastLoadedFileName p))
            || negb (Js.string_eq (activeFile w) (lastLoadedFileName p))
            || loadingFile p); auto.
  rewrite Hnan. simpl. destruct (lastEphemeralState p); reflexivity.
Qed.

Lemma checkEphemeralStateChanged_no_view_witness :
  let w := {| activeFile := Some "a.md"%string; mostRecentLeaf := None;
              allLeaves := []; flashingSpan := false;
              activeMarkdownView := None |} in
  let p := fst (onload None empty_vault empty_vault w) in
  activeMarkdownView w = None
  /\ db (checkEphemeralStateChanged w p) = db p.
Proof.
  intros w p. split; [reflexivity|].
  exact (proj2 (checkEphemeralStateChanged_no_view w p eq_refl)).
Defined.

(** X9.  An evaluation changes nothing but the baseline and the cache
    entry of the active document: every other key of the cache holds what
    it held, and the shadow cache, the settings, [lastLoadedFileName] and
    [loadingFile] are as before. *)
Theorem checkEphemeralStateChanged_frame w p :
  let p' := checkEphemeralStateChanged w p in
  (forall k, activeFile w <> Some k -> Js.own (db p') k = Js.own (db p) k)
  /\ lastSavedDb p' = lastSavedDb p
  /\ settings p' = settings p
  /\ lastLoadedFileName p' = lastLoadedFileName p
  /\ loadingFile p' = loadingFile p
  /\ loadedLeafIdList p' = loadedLeafIdList p.
Proof.
  simpl.
  destruct (check_blocked_or_open w p) as [Hb|[f [Hf [Ha [Hl Hload]]]]].
  - rewrite (check_blocked w p Hb). repeat split.
  - rewrite (check_open w p f Hf Ha Hl Hload).
    destruct (lastEphemeralState p) as [last|]; [|repeat split].
    destruct (negb (Js.isNaN (scroll (getEphemeralState w)))
              && negb (isEphemeralStatesEquals (getEphemeralState w) last));
      repeat split.
    intros k Hk. simpl. apply own_assign_other. congruence.
Qed.

Lemma checkEphemeralStateChanged_frame_witness :
  let p := {| settings := DEFAULT_SETTINGS;
              db := [("a.md"%string, Some (at_offset 125000));
                     ("b.md"%string, Some (at_offset 70000))];
              lastSavedDb := [];
              lastEphemeralState := Some (at_offset 125000);
              lastLoadedFileName := Some "a.md"%string;
              loadedLeafIdList := []; loadingFile := false |} in
  let w := viewing "a.md" 400000 in
  activeFile w <> Some "b.md"%string
  /\ Js.own (db (checkEphemeralStateChanged w p)) "b.md" = Js.own (db p) "b.md".
Proof.
  intros p w.
  assert (Hne : activeFile w <> Some "b.md"%string) by discriminate.
  split; [exact Hne|].
  exact (proj1 (checkEphemeralStateChanged_frame w p) "b.md"%string Hne).
Defined.

(** X10.  Evaluating twice on the same workspace is evaluating once: the
    second evaluation finds the sample equal to the baseline the first one
    left. *)
Theorem checkEphemeralStateChanged_idempotent w p :
  checkEphemeralStateChanged w (checkEphemeralStateChanged w p)
  = checkEphemeralStateChanged w p.
Proof.
  assert (Hrefl : isEphemeralStatesEquals (getEphemeralState w)
                                          (getEphemeralState w) = true).
  { apply isEphemeralStatesEquals_true.
    destruct (Js.truthy (scroll (getEphemeralState w))); auto. }
  destruct (check_blocked_or_open w p) as [Hb|[f [Hf [Ha [Hl Hload]]]]].
  - now rewrite !(check_blocked w p Hb).
  - rewrite (check_open w p f Hf Ha Hl Hload).
    destruct (lastEphemeralState p) as [last|] eqn:El.
    + destruct (negb (Js.isNaN (scroll (getEphemeralState w)))
                && negb (isEphemeralStatesEquals (getEphemeralState w) last))
        eqn:Ed.
      * rewrite (check_open w _ f Hf Ha) by assumption.
        cbn [lastEphemeralState set_lastEphemeralState].
        now rewrite Hrefl, andb_false_r.
      * rewrite (check_open w p f Hf Ha Hl Hload). now rewrite El, Ed.
    + rewrite (check_open w _ f Hf Ha) by assumption.
      cbn [lastEphemeralState set_lastEphemeralState].
      now rewrite Hrefl, andb_false_r.
Qed.

(** ** The restore sequence, again *)

(** What a call that suspends has done by then. *)
Lemma restore_suspended w p p1 k :
  restoreEphemeralState w p = (p1, Some k) ->
  exists f st,
    activeFile w = Some f /\ f <> ""%string
    /\ k = AwaitSettle st /\ db_get (db p) f = Some st
    /\ loadingFile p1 = true
    /\ lastLoadedFileName p1 = Some f
    /\ lastEphemeralState p1 = Some {| scroll := Js.Undefined |}
    /\ db p1 = db p.
Proof.
  unfold restoreEphemeralState. intros H.
  destruct (Js.truthy_string (activeFile w) && loadingFile p
            && Js.string_eq (lastLoadedFileName p) (activeFile w));
    [inversion H|].
  destruct (match mostRecentLeaf w with
            | Some activeLeaf =>
                existsb (String.eqb (leaf_key activeLeaf)) (loadedLeafIdList p)
            | None => false
            end); [inversion H|].
  cbn -[Js.string_eq Js.truthy_string db_get] in H.
  destruct (negb (Js.string_eq (lastLoadedFileName p) (activeFile w)));
    [|inversion H].
  destruct (Js.truthy_string (activeFile w)) eqn:Ht; [|inversion H].
  destruct (activeFile w) as [f|] eqn:Ef; [|inversion H].
  destruct (db_get (db p) f) as [st|] eqn:Eg; inversion H; subst.
  exists f, st. apply truthy_string_some in Ht. repeat split; auto.
Qed.

Lemma flush_loading p v r :
  flush p v = Js.Ok r ->
  loadingFile (fst (fst r)) = loadingFile p
  /\ lastLoadedFileName (fst (fst r)) = lastLoadedFileName p.
Proof.
  unfold flush. intros H.
  destruct (text_eq_dec (JSON_stringify (db p)) (JSON_stringify (lastSavedDb p)))
    as [Heq|Hne].
  - destruct (writeDb_unchanged (db p) p v Heq) as [v0 [io0 [_ Hw]]].
    rewrite Hw in H. inversion H. split; reflexivity.
  - destruct (writeDb_changed (db p) p v Hne) as [v0 [io0 [_ Hw]]].
    rewrite Hw in H. inversion H. split; reflexivity.
Qed.

(** Rename, delete, evaluation and flush leave a set [loadingFile] set,
    and [lastLoadedFileName] as it is. *)
Lemma undisturbed_loading p q :
  undisturbed p q ->
  loadingFile p = true ->
  loadingFile q = true /\ lastLoadedFileName q = lastLoadedFileName p.
Proof.
  induction 1 as [p | file oldPath p q _ IH | file p q _ IH | w p q _ IH
                  | v p q r _ IH Hf]; intros Hload.
  - split; [exact Hload | reflexivity].
  - exact (IH Hload).
  - exact (IH Hload).
  - destruct (IH Hload) as [Hl Hn].
    rewrite (check_blocked w q) by now repeat right. now split.
  - destruct (IH Hload) as [Hl Hn].
    destruct (flush_loading q v r Hf) as [-> ->]. now split.
Qed.

(** X11.  From the moment a call of [restoreEphemeralState] suspends, and
    for as long as the only callbacks that run are rename, delete,
    evaluation and flush, [loadingFile] stays set and an evaluation changes
    nothing, whatever the workspace. *)
Theorem suspended_restore_blocks_evaluation w p p1 k q :
  restoreEphemeralState w p = (p1, Some k) ->
  undisturbed p1 q ->
  loadingFile q = true
  /\ forall w', checkEphemeralStateChanged w' q = q.
Proof.
  intros H Hund. destruct (restore_suspended w p p1 k H)
    as [f [st [_ [_ [_ [_ [Hload _]]]]]]].
  destruct (undisturbed_loading p1 q Hund Hload) as [Hq _].
  split; [exact Hq|]. intros w'. apply check_blocked. now repeat right.
Qed.

Lemma suspended_restore_blocks_evaluation_witness :
  let p := {| settings := DEFAULT_SETTINGS;
              db := [("a.md"%string, Some (at_offset 1200000));
                     ("c.md"%string, Some (at_offset 70000))];
              lastSavedDb := [];
              lastEphemeralState := None; lastLoadedFileName := None;
              loadedLeafIdList := []; loadingFile := false |} in
  let p1 := fst (restoreEphemeralState (viewing "a.md" 0) p) in
  let q := deleteFile {| path := "c.md" |}
             (checkEphemeralStateChanged (viewing "a.md" 50000) p1) in
  (restoreEphemeralState (viewing "a.md" 0) p
   = (p1, Some (AwaitSettle (at_offset 1200000)))
   /\ undisturbed p1 q)
  /\ checkEphemeralStateChanged (viewing "a.md" 300000) q = q.
Proof.
  intros p p1 q.
  assert (H : restoreEphemeralState (viewing "a.md" 0) p
              = (p1, Some (AwaitSettle (at_offset 1200000)))) by reflexivity.
  assert (Hund : undisturbed p1 q)
    by (apply und_delete, und_scroll, und_here).
  split; [split; assumption|].
  exact (proj2 (suspended_restore_blocks_evaluation _ _ _ _ q H Hund)
               (viewing "a.md" 300000)).
Defined.



Lemma existsb_eqb_In (x : string) (l : list string) :
  In x l -> existsb (String.eqb x) l = true.
Proof.
  intros H. apply existsb_exists. exists x. split; auto.
  apply String.eqb_refl.
Qed.

(** X13.  An open notification that comes again for the same workspace,
    with the most recent leaf a markdown leaf among the open ones, is
    dropped: the first call has listed that leaf with its document, and the
    second returns at once, changing no field. *)
Theorem repeated_open_is_dropped w p leaf :
  mostRecentLeaf w = Some leaf ->
  In leaf (allLeaves w) ->
  leaf_type leaf = "markdown"%string ->
  restoreEphemeralState w (fst (restoreEphemeralState w p))
  = (fst (restoreEphemeralState w p), None).
Proof.
  intros Hrecent Hin Htype.
  unfold restoreEphemeralState at 2 3.
  destruct (Js.truthy_string (activeFile w) && loadingFile p
            && Js.string_eq (lastLoadedFileName p) (activeFile w)) eqn:G1.
  { simpl. unfold restoreEphemeralState. now rewrite G1. }
  rewrite Hrecent.
  destruct (existsb (String.eqb (leaf_key leaf)) (loadedLeafIdList p)) eqn:G2.
  { simpl. unfold restoreEphemeralState. now rewrite G1, Hrecent, G2. }
  assert (Hlisted :
    existsb (String.eqb (leaf_key leaf))
      (map leaf_key
         (filter (fun l => String.eqb (leaf_type l) "markdown")
                 (allLeaves w))) = true).
  { apply existsb_eqb_In. apply in_map. apply filter_In. split; auto.
    rewrite Htype. reflexivity. }
  assert (Hdrop : forall q,
    loadedLeafIdList q
    = map leaf_key (filter (fun l => String.eqb (leaf_type l) "markdown")
                           (allLeaves w)) ->
    restoreEphemeralState w q = (q, None)).
  { intros q Hq. unfold restoreEphemeralState. rewrite Hrecent, Hq, Hlisted.
    destruct (Js.truthy_string (activeFile w) && loadingFile q
              && Js.string_eq (lastLoadedFileName q) (activeFile w));
      reflexivity. }
  cbn -[Js.string_eq Js.truthy_string db_get restoreEphemeralState].
  destruct (negb (Js.string_eq (lastLoadedFileName p) (activeFile w)));
    [|apply Hdrop; reflexivity].
  destruct (if Js.truthy_string (activeFile w) then activeFile w else None)
    as [f|]; [|apply Hdrop; reflexivity].
  destruct (db_get (db p) f); apply Hdrop; reflexivity.
Qed.

Lemma repeated_open_is_dropped_witness :
  let p := fst (onload None empty_vault empty_vault (viewing "a.md" 0)) in
  let w := viewing "b.md" 0 in
  (exists leaf, mostRecentLeaf w = Some leaf /\ In leaf (allLeaves w)
                /\ leaf_type leaf = "markdown"%string)
  /\ restoreEphemeralState w (fst (restoreEphemeralState w p))
     = (fst (restoreEphemeralState w p), None).
Proof.
  intros p w.
  assert (Hin : In {| leaf_id := "pane"; leaf_type := "markdown";
                      leaf_file := Some "b.md"%string |} (allLeaves w))
    by (left; reflexivity).
  split.
  - eexists. split; [reflexivity|]. split; [exact Hin | reflexivity].
  - exact (repeated_open_is_dropped w p _ eq_refl Hin eq_refl).
Defined.

(** X14.  A restore sequence that starts with [loadingFile] false and
    runs with nothing in between ends with [loadingFile] false again, on
    every path.  If it suspended, the state saved for the document is the
    baseline at the end, applied or not, and with the flashing marker
    present at the settle timer the workspace is left untouched. *)
Theorem restore_run_ends_idle w0 w1 w2 p :
  loadingFile p = false ->
  loadingFile (snd (restore_run w0 w1 w2 p)) = false
  /\ forall p1 k,
       restoreEphemeralState w0 p = (p1, Some k) ->
       lastEphemeralState (snd (restore_run w0 w1 w2 p)) = Some (held k)
       /\ lastLoadedFileName (snd (restore_run w0 w1 w2 p)) = activeFile w0
       /\ (flashingSpan w1 = true -> fst (restore_run w0 w1 w2 p) = w1)
       /\ (flashingSpan w1 = false ->
           fst (restore_run w0 w1 w2 p) = setEphemeralState w2 (held k)).
Proof.
  intros Hidle. unfold restore_run.
  destruct (restoreEphemeralState w0 p) as [p1 [k|]] eqn:Er.
  - destruct (restore_suspended w0 p p1 k Er)
      as [f [st [Ha [_ [-> [_ [_ [Hlast _]]]]]]]].
    simpl. destruct (flashingSpan w1) eqn:Efl; simpl.
    + split; [reflexivity|]. intros q k' Hq. inversion Hq; subst.
      simpl. rewrite Hlast, Ha. repeat split; auto. discriminate.
    + split; [reflexivity|]. intros q k' Hq. inversion Hq; subst.
      simpl. rewrite Hlast, Ha. repeat split; auto. discriminate.
  - split; [|intros q k' Hq; discriminate]. simpl.
    unfold restoreEphemeralState in Er.
    destruct (Js.truthy_string (activeFile w0) && loadingFile p
              && Js.string_eq (lastLoadedFileName p) (activeFile w0));
      [inversion Er; now subst|].
    destruct (match mostRecentLeaf w0 with
              | Some activeLeaf =>
                  existsb (String.eqb (leaf_key activeLeaf))
                          (loadedLeafIdList p)
              | None => false
              end); [inversion Er; now subst|].
    cbn -[Js.string_eq Js.truthy_string db_get] in Er.
    destruct (negb (Js.string_eq (lastLoadedFileName p) (activeFile w0)));
      [|inversion Er; reflexivity].
    destruct (if Js.truthy_string (activeFile w0) then activeFile w0
              else None) as [f|]; [|inversion Er; reflexivity].
    destruct (db_get (db p) f); inversion Er; reflexivity.
Qed.

Lemma restore_run_ends_idle_witness :
  let p := {| settings := DEFAULT_SETTINGS;
              db := [("a.md"%string, Some (at_offset 1200000))];
              lastSavedDb := [];
              lastEphemeralState := None; lastLoadedFileName := None;
              loadedLeafIdList := []; loadingFile := false |} in
  let w := viewing "a.md" 0 in
  loadingFile p = false
  /\ loadingFile (snd (restore_run w w w p)) = false.
Proof.
  intros p w. split; [reflexivity|].
  exact (proj1 (restore_run_ends_idle w w w p eq_refl)).
Defined.

(** X15.  Once a sequence has applied a state with a truthy scroll, an
    evaluation on the workspace it leaves records nothing: the sample is
    the state just applied, which is the baseline. *)
Theorem evaluation_after_restore_is_quiet st w p :
  Js.truthy (scroll st) = true ->
  let w' := fst (fst (resume (AwaitApply st) w p)) in
  let p' := snd (fst (resume (AwaitApply st) w p)) in
  checkEphemeralStateChanged w' p' = p'.
Proof.
  intros Ht w' p'. subst w' p'. simpl.
  destruct (check_blocked_or_open (setEphemeralState w st)
              (restore_end (Some st) p)) as [Hb|[f [Hf [Ha [Hl Hload]]]]].
  - now apply check_blocked.
  - rewrite (check_open _ _ f Hf Ha Hl Hload).
    unfold restore_end at 1.
    cbn [lastEphemeralState set_loadingFile set_lastEphemeralState].
    assert (Hquiet :
      negb (Js.isNaN (scroll (getEphemeralState (setEphemeralState w st))))
      && negb (isEphemeralStatesEquals
                 (getEphemeralState (setEphemeralState w st)) st) = false).
    { unfold setEphemeralState, getEphemeralState.
      destruct (activeMarkdownView w) as [view|] eqn:Ev.
      - rewrite Ht. simpl. unfold view_setEphemeralState.
        pose proof Ht as Hq. apply truthy_number in Hq.
        destruct Hq as [q [Hs Hq]]. rewrite Hs. simpl.
        assert (Heq : isEphemeralStatesEquals
                        {| scroll := Js.Number (Js.Fin q) |} st = true).
        { apply isEphemeralStatesEquals_true. right. simpl.
          split; [apply negb_true_iff; now apply Z.eqb_neq | now rewrite Hs]. }
        now rewrite Heq.
      - rewrite Ev. reflexivity. }
    now rewrite Hquiet.
Qed.

Lemma evaluation_after_restore_is_quiet_witness :
  let p := {| settings := DEFAULT_SETTINGS;
              db := [("a.md"%string, Some (at_offset 1200000))];
              lastSavedDb := [];
              lastEphemeralState := Some {| scroll := Js.Undefined |};
              lastLoadedFileName := Some "a.md"%string;
              loadedLeafIdList := []; loadingFile := true |} in
  let r := resume (AwaitApply (at_offset 1200000)) (viewing "a.md" 0) p in
  Js.truthy (scroll (at_offset 1200000)) = true
  /\ checkEphemeralStateChanged (fst (fst r)) (snd (fst r)) = snd (fst r).
Proof.
  intros p r. split; [reflexivity|].
  exact (evaluation_after_restore_is_quiet (at_offset 1200000)
           (viewing "a.md" 0) p eq_refl).
Defined.

(** X16.  No part of the restore sequence writes the cache: the call and
    each resumption leave the cache, the shadow cache and the settings as
    they found them. *)
Theorem restore_never_writes_cache w p k :
  (db (fst (restoreEphemeralState w p)) = db p
   /\ lastSavedDb (fst (restoreEphemeralState w p)) = lastSavedDb p
   /\ settings (fst (restoreEphemeralState w p)) = settings p)
  /\ (db (snd (fst (resume k w p))) = db p
      /\ lastSavedDb (snd (fst (resume k w p))) = lastSavedDb p
      /\ settings (snd (fst (resume k w p))) = settings p).
Proof.
  split; [apply restoreEphemeralState_db|].
  destruct k; simpl; [destruct (flashingSpan w)|]; repeat split.
Qed.

(** ** The flush, again *)

Lemma lastIndexOf_from_app c s1 s2 i found :
  Js.lastIndexOf_from c (s1 ++ s2)%string i found
  = Js.lastIndexOf_from c s2 (i + Z.of_nat (String.length s1))
      (Js.lastIndexOf_from c s1 i found).
Proof.
  revert i found. induction s1 as [|a r IH]; intros i found.
  - simpl. now rewrite Z.add_0_r.
  - cbn [String.append Js.lastIndexOf_from String.length]. rewrite IH.
    f_equal. lia.
Qed.

Lemma lastIndexOf_from_range c s i found :
  Js.lastIndexOf_from c s i found = found
  \/ i <= Js.lastIndexOf_from c s i found.
Proof.
  revert i found. induction s as [|a r IH]; intros i found; simpl; auto.
  destruct (Ascii.eqb a c).
  - right. destruct (IH (i + 1) i) as [->|H]; lia.
  - destruct (IH (i + 1) found) as [H|H]; [now left | right; lia].
Qed.

Lemma lastIndexOf_from_none c s :
  forall j, 0 <= j -> Js.lastIndexOf_from c s j (-1) = -1 ->
  forall i found, Js.lastIndexOf_from c s i found = found.
Proof.
  induction s as [|a r IH]; intros j Hj Hnone i found; simpl in *; auto.
  destruct (Ascii.eqb a c) eqn:E.
  - exfalso. destruct (lastIndexOf_from_range c r (j + 1) j) as [H|H]; lia.
  - apply (IH (j + 1)); auto; lia.
Qed.

Lemma substring_prefix (s1 s2 : string) :
  String.substring 0 (String.length s1) (s1 ++ s2) = s1.
Proof.
  induction s1 as [|a r IH]; simpl.
  - destruct s2; reflexivity.
  - now rewrite IH.
Qed.

(** The folder [writeDb] computes from a name [dir/base]. *)
Lemma parent_folder dir base :
  Js.lastIndexOf "/" base = -1 ->
  Js.substring0 (Js.lastIndexOf "/" (dir ++ "/" ++ base)%string)
                (dir ++ "/" ++ base)%string = dir.
Proof.
  intros Hbase. unfold Js.lastIndexOf, Js.substring0.
  rewrite lastIndexOf_from_app.
  cbn [String.append Js.lastIndexOf_from]. rewrite Ascii.eqb_refl.
  rewrite (lastIndexOf_from_none "/" base 0) by (lia || exact Hbase).
  simpl. rewrite Nat2Z.id. apply substring_prefix.
Qed.

(** X17.  For a file name [dir/base] whose [base] has no slash, the flush
    looks for the folder [dir]: when it exists no [mkdir] is issued, and
    when it does not, exactly one is, for [dir], before any write. *)
Theorem flush_creates_parent_folder p v dir base :
  dbFileName (settings p) = (dir ++ "/" ++ base)%string ->
  Js.lastIndexOf "/" base = -1 ->
  exists p1 v1 io1,
    flush p v = Js.Ok (p1, v1, io1)
    /\ exists rest,
         io1 = (if adapter_exists v dir then [] else [IoMkdir dir]) ++ rest
         /\ Forall (fun e => is_write e = true) rest.
Proof.
  intros Hname Hbase. unfold flush, writeDb.
  rewrite Hname, (parent_folder dir base Hbase).
  destruct (adapter_exists v dir); cbn [negb];
    destruct (text_neq (JSON_stringify (db p))
                       (JSON_stringify (lastSavedDb p)));
    cbn [JSON_parse JSON_stringify];
    eexists _, _, _; (split; [reflexivity|]);
    eexists; (split; [reflexivity|]); repeat constructor.
Qed.

Lemma flush_creates_parent_folder_witness :
  let p := {| settings := DEFAULT_SETTINGS;
              db := [("a.md"%string, Some (at_offset 125000))];
              lastSavedDb := [];
              lastEphemeralState := None; lastLoadedFileName := None;
              loadedLeafIdList := []; loadingFile := false |} in
  (dbFileName (settings p)
   = (".obsidian/plugins/remember-scroll-position" ++ "/"
      ++ "scroll-positions.json")%string
   /\ Js.lastIndexOf "/" "scroll-positions.json" = -1)
  /\ exists p1 v1 io1,
       flush p empty_vault = Js.Ok (p1, v1, io1)
       /\ exists rest,
            io1 = [IoMkdir ".obsidian/plugins/remember-scroll-position"]
                  ++ rest.
Proof.
  intros p.
  assert (Hname : dbFileName (settings p)
                  = (".obsidian/plugins/remember-scroll-position" ++ "/"
                     ++ "scroll-positions.json")%string) by reflexivity.
  assert (Hbase : Js.lastIndexOf "/" "scroll-positions.json" = -1)
    by reflexivity.
  split; [split; assumption|].
  destruct (flush_creates_parent_folder p empty_vault _ _ Hname Hbase)
    as [p1 [v1 [io1 [Hf [rest [Hio _]]]]]].
  exists p1, v1, io1. split; [exact Hf|]. exists rest. exact Hio.
Defined.

(** X18.  A flush always goes through, whatever the vault does.  It leaves
    every plugin field but the shadow cache as it was, touches no file of
    the vault but the durable one, and any write it issues is of the
    serialized cache to the durable file. *)
Theorem flush_frame p v :
  exists p1 v1 io1,
    flush p v = Js.Ok (p1, v1, io1)
    /\ p1 = set_lastSavedDb p (lastSavedDb p1)
    /\ (forall f, f <> dbFileName (settings p) ->
                  Js.own (files v1) f = Js.own (files v) f)
    /\ (forall f data, In (IoWrite f data) io1 ->
                       f = dbFileName (settings p)
                       /\ data = JSON_stringify (db p)).
Proof.
  unfold flush.
  destruct (text_eq_dec (JSON_stringify (db p)) (JSON_stringify (lastSavedDb p)))
    as [Heq|Hne].
  - destruct (writeDb_unchanged (db p) p v Heq)
      as [v0 [io0 [[Hfiles [_ [_ Hio]]] Hw]]].
    exists p, v0, io0. split; [exact Hw|]. split; [now destruct p|].
    split; [intros f _; now rewrite Hfiles|].
    intros f data Hin. exfalso. unfold writes in Hio.
    assert (Hin' : In (IoWrite f data) (filter is_write io0))
      by (apply filter_In; auto).
    destruct (filter is_write io0); [contradiction | discriminate].
  - destruct (writeDb_changed (db p) p v Hne)
      as [v0 [io0 [[Hfiles [_ [_ Hio]]] Hw]]].
    eexists _, _, _. split; [exact Hw|]. split; [reflexivity|]. split.
    + intros f Hf. unfold adapter_write.
      destruct (write_fails v0); simpl; [now rewrite Hfiles|].
      rewrite own_assign_other by congruence. now rewrite Hfiles.
    + intros f data Hin. apply in_app_or in Hin.
      destruct Hin as [Hin|[Hin|[]]]; [|inversion Hin; auto].
      exfalso. unfold writes in Hio.
      assert (Hin' : In (IoWrite f data) (filter is_write io0))
        by (apply filter_In; auto).
      destruct (filter is_write io0); [contradiction | discriminate].
Qed.

(** X19.  After a startup whose two reads see the same vault, the cache and
    the shadow cache are the same mapping, and the first flush writes
    nothing, whatever the file held. *)
Theorem startup_is_clean data v w :
  let p := fst (onload data v v w) in
  db p = lastSavedDb p
  /\ forall v', exists v2 io2,
       flush p v' = Js.Ok (p, v2, io2) /\ writes io2 = 0%nat.
Proof.
  simpl.
  assert (Hsame : db (fst (onload data v v w))
                  = lastSavedDb (fst (onload data v v w))).
  { destruct (onload_fields data v v w) as [-> ->]. unfold onload_read.
    destruct (readDb (loadSettings data) v); reflexivity. }
  split; [exact Hsame|]. intros v'.
  assert (Heq : JSON_stringify (db (fst (onload data v v w)))
                = JSON_stringify (lastSavedDb (fst (onload data v v w))))
    by now rewrite <- Hsame.
  destruct (writeDb_unchanged (db (fst (onload data v v w))) _ v' Heq)
    as [v2 [io2 [Hf Hw]]].
  exists v2, io2. split; [exact Hw | apply Hf].
Qed.

(** ** The cache over a run *)

(** X20.  In every state the plugin can reach, no path is a key of the
    cache twice, and no state the cache holds has [NaN] for its scroll: a
    sample that is not a number never gets into the cache. *)
Theorem reachable_cache_is_sound p ks :
  reachable p ks ->
  NoDup (Js.keys (db p))
  /\ forall k st, db_get (db p) k = Some st ->
                  scroll st <> Js.Number Js.NaN.
Proof.
  intros Hreach. destruct (reachable_cache_ok p ks Hreach) as [Hwf Hnan].
  split; [exact Hwf|]. intros k st Hget.
  pose proof (no_nan_db_get (db p) k Hnan) as H. now rewrite Hget in H.
Qed.

Lemma reachable_cache_is_sound_witness :
  let w := {| activeFile := Some "c.md"%string; mostRecentLeaf := None;
              allLeaves := []; flashingSpan := false;
              activeMarkdownView := None |} in
  let p := checkEphemeralStateChanged w
             (checkEphemeralStateChanged (viewing "c.md" 70000)
                (fst (onload None empty_vault empty_vault
                             (viewing "c.md" 0)))) in
  reachable p [] /\ NoDup (Js.keys (db p)).
Proof.
  intros w p.
  assert (Hreach : reachable p []).
  { exact (reach_scroll _ _ _
             (reach_scroll _ _ _
                (reach_onload None empty_vault empty_vault
                              (viewing "c.md" 0)))). }
  split; [exact Hreach|].
  exact (proj1 (reachable_cache_is_sound p [] Hreach)).
Defined.

Lemma remove_absent {V} (o : Js.object V) k :
  ~ In k (Js.keys o) -> Js.remove o k = o.
Proof.
  induction o as [|[k' v] r IH]; simpl; intros Hn; auto.
  destruct (String.eqb k' k) eqn:E.
  - apply String.eqb_eq in E. tauto.
  - simpl. rewrite IH; tauto.
Qed.

Lemma stringify_assign_undefined d k :
  db_get d k = None ->
  stringify_members (Js.assign d k None) = stringify_members d.
Proof.
  unfold db_get. induction d as [|[k' v] r IH]; simpl; auto.
  destruct (String.eqb k' k) eqn:E; simpl.
  - intros ->. reflexivity.
  - intros H. now rewrite IH.
Qed.

Lemma stringify_remove_undefined d k :
  Js.well_formed d -> db_get d k = None ->
  stringify_members (Js.remove d k) = stringify_members d.
Proof.
  unfold db_get, Js.well_formed.
  induction d as [|[k' v] r IH]; simpl; intros Hwf Hget; auto.
  inversion Hwf as [|? ? Hn Hr]; subst.
  destruct (String.eqb k' k) eqn:E; simpl.
  - apply String.eqb_eq in E. subst k'. subst v.
    now rewrite remove_absent.
  - fold (Js.remove r k). now rewrite IH.
Qed.

(** X21.  Renaming a document that has no saved position, onto a path that
    has none either, leaves the serialized cache as it was: the rename
    alone gives the next flush nothing to write. *)
Theorem renameFile_unsaved_keeps_text file oldPath p :
  Js.well_formed (db p) ->
  db_get (db p) oldPath = None ->
  db_get (db p) (path file) = None ->
  JSON_stringify (db (renameFile file oldPath p)) = JSON_stringify (db p).
Proof.
  intros Hwf Hold Hnew. rewrite db_renameFile, Hold. unfold JSON_stringify.
  f_equal. rewrite stringify_remove_undefined.
  - now apply stringify_assign_undefined.
  - now apply well_formed_assign.
  - unfold db_get. destruct (string_dec (path file) oldPath) as [<-|Hne].
    + now rewrite own_assign_same.
    + rewrite own_assign_other by exact Hne. exact Hold.
Qed.

Lemma renameFile_unsaved_keeps_text_witness :
  let p := {| settings := DEFAULT_SETTINGS;
              db := [("c.md"%string, Some (at_offset 90000))];
              lastSavedDb := [("c.md"%string, Some (at_offset 90000))];
              lastEphemeralState := None; lastLoadedFileName := None;
              loadedLeafIdList := []; loadingFile := false |} in
  (Js.well_formed (db p) /\ db_get (db p) "a.md" = None)
  /\ JSON_stringify (db (renameFile {| path := "b.md" |} "a.md" p))
     = JSON_stringify (db p).
Proof.
  intros p.
  assert (Hwf : Js.well_formed (db p)).
  { unfold Js.well_formed. simpl. constructor; [simpl; tauto | constructor]. }
  split; [split; [exact Hwf | reflexivity]|].
  exact (renameFile_unsaved_keeps_text {| path := "b.md" |} "a.md" p
           Hwf eq_refl eq_refl).
Defined.

Lemma remove_remove {V} (o : Js.object V) k :
  Js.remove (Js.remove o k) k = Js.remove o k.
Proof.
  unfold Js.remove. induction o as [|[k' v] r IH]; simpl; auto.
  destruct (String.eqb k' k) eqn:E; simpl; auto.
  now rewrite E, IH.
Qed.

(** X22.  A delete notification for a document that has no key in the
    cache changes nothing at all, and a second delete notification for the
    same document changes nothing more than the first. *)
Theorem deleteFile_absent_or_twice file p :
  (Js.has_own (db p) (path file) = false -> deleteFile file p = p)
  /\ deleteFile file (deleteFile file p) = deleteFile file p.
Proof.
  split.
  - unfold Js.has_own. intros H. unfold deleteFile.
    rewrite remove_absent; [now destruct p|].
    apply own_none_not_key. destruct (Js.own (db p) (path file));
      [discriminate | reflexivity].
  - unfold deleteFile. simpl. now rewrite remove_remove.
Qed.

Lemma deleteFile_absent_or_twice_witness :
  let p := {| settings := DEFAULT_SETTINGS;
              db := [("c.md"%string, Some (at_offset 90000))];
              lastSavedDb := [];
              lastEphemeralState := None; lastLoadedFileName := None;
              loadedLeafIdList := []; loadingFile := false |} in
  Js.has_own (db p) "a.md" = false
  /\ deleteFile {| path := "a.md" |} p = p.
Proof.
  intros p. split; [reflexivity|].
  exact (proj1 (deleteFile_absent_or_twice {| path := "a.md" |} p) eq_refl).
Defined.

(** X23.  Renaming a document and renaming it back: reading the cache at
    the first path gives what it gave at the start, the other path is no
    key, and every other key holds what it held. *)
Theorem renameFile_there_and_back a b p :
  a <> b ->
  let p' := renameFile {| path := a |} b (renameFile {| path := b |} a p) in
  db_get (db p') a = db_get (db p) a
  /\ Js.has_own (db p') b = false
  /\ forall k, k <> a -> k <> b -> Js.own (db p') k = Js.own (db p) k.
Proof.
  intros Hne p'. subst p'. rewrite !db_renameFile. simpl path.
  set (d1 := Js.remove (Js.assign (db p) b (db_get (db p) a)) a).
  assert (Hd1b : db_get d1 b = db_get (db p) a).
  { unfold d1, db_get at 1. rewrite own_remove_other by congruence.
    now rewrite own_assign_same. }
  split; [|split].
  - unfold db_get at 1. rewrite own_remove_other by congruence.
    now rewrite own_assign_same.
  - unfold Js.has_own. now rewrite own_remove_same.
  - intros k Hka Hkb.
    rewrite own_remove_other, own_assign_other by congruence.
    unfold d1. rewrite own_remove_other, own_assign_other by congruence.
    reflexivity.
Qed.

Lemma renameFile_there_and_back_witness :
  let p := {| settings := DEFAULT_SETTINGS;
              db := [("a.md"%string, Some (at_offset 90000))];
              lastSavedDb := [];
              lastEphemeralState := None; lastLoadedFileName := None;
              loadedLeafIdList := []; loadingFile := false |} in
  "a.md"%string <> "b.md"%string
  /\ db_get (db (renameFile {| path := "a.md" |} "b.md"
                   (renameFile {| path := "b.md" |} "a.md" p))) "a.md"
     = db_get (db p) "a.md".
Proof.
  intros p.
  assert (Hne : "a.md"%string <> "b.md"%string) by discriminate.
  split; [exact Hne|].
  exact (proj1 (renameFile_there_and_back "a.md" "b.md" p Hne)).
Defined.

(** X24.  A rename notification does not move [lastLoadedFileName]: once
    the loaded document has been renamed, an evaluation with the new path
    active records nothing, until an open notification loads that path. *)
Theorem renamed_document_is_not_sampled file oldPath p w :
  lastLoadedFileName p = Some oldPath ->
  path file <> oldPath ->
  activeFile w = Some (path file) ->
  lastLoadedFileName (renameFile file oldPath p) = Some oldPath
  /\ checkEphemeralStateChanged w (renameFile file oldPath p)
     = renameFile file oldPath p.
Proof.
  intros Hlast Hne Hact.
  assert (Hkeep : lastLoadedFileName (renameFile file oldPath p)
                  = Some oldPath) by exact Hlast.
  split; [exact Hkeep|].
  apply check_blocked. right. right. left. rewrite Hact, Hkeep. congruence.
Qed.

Lemma renamed_document_is_not_sampled_witness :
  let p := {| settings := DEFAULT_SETTINGS;
              db := [("a.md"%string, Some (at_offset 125000))];
              lastSavedDb := [];
              lastEphemeralState := Some (at_offset 125000);
              lastLoadedFileName := Some "a.md"%string;
              loadedLeafIdList := []; loadingFile := false |} in
  let q := renameFile {| path := "b.md" |} "a.md" p in
  (lastLoadedFileName p = Some "a.md"%string
   /\ activeFile (viewing "b.md" 400000) = Some "b.md"%string)
  /\ checkEphemeralStateChanged (viewing "b.md" 400000) q = q.
Proof.
  intros p q. split; [split; reflexivity|].
  assert (Hne : path {| path := "b.md" |} <> "a.md"%string)
    by (simpl; discriminate).
  exact (proj2 (renamed_document_is_not_sampled {| path := "b.md" |} "a.md"
                  p (viewing "b.md" 400000) eq_refl Hne eq_refl)).
Defined.

(** X25.  A saved position outlives a rename, a flush and a reading back:
    for a reachable cache that holds a state for the old path, after the
    rename to a different path and a flush that writes and goes through,
    the file read back holds that state under the new path and nothing
    under the old one. *)
Theorem renamed_entry_is_persisted file oldPath p ks v st :
  reachable p ks ->
  db_get (db p) oldPath = Some st ->
  path file <> oldPath ->
  write_fails v = false ->
  read_fails v = false ->
  JSON_stringify (db (renameFile file oldPath p))
  <> JSON_stringify (lastSavedDb p) ->
  exists p1 v1 io1 d,
    flush (renameFile file oldPath p) v = Js.Ok (p1, v1, io1)
    /\ readDb (settings p) v1 = Js.Ok d
    /\ db_get d (path file) = Some st
    /\ db_get d oldPath = None.
Proof.
  intros Hreach Hget Hne Hw Hr Hdirty.
  set (q := renameFile file oldPath p).
  assert (Hok : cache_ok (db q)).
  { apply (reachable_cache_ok q ks). now apply reach_rename. }
  destruct Hok as [Hwf Hnan].
  destruct (writeDb_changed (db q) q v Hdirty)
    as [v0 [io0 [[_ [Hw0 [Hr0 _]]] Hflush]]].
  exists (set_lastSavedDb q (parse_members (stringify_members (db q)))),
         (adapter_write v0 (dbFileName (settings q)) (JSON_stringify (db q))),
         (io0 ++ [IoWrite (dbFileName (settings q)) (JSON_stringify (db q))]),
         (defined_entries (db q)).
  split; [exact Hflush|]. split.
  - change (settings p) with (settings q).
    rewrite readDb_after_write by congruence.
    simpl. now rewrite parse_stringify_members.
  - rewrite !db_get_defined_entries by exact Hwf.
    unfold q. rewrite db_renameFile. unfold db_get at 1 3. split.
    + rewrite own_remove_other by congruence.
      now rewrite own_assign_same.
    + now rewrite own_remove_same.
Qed.

Lemma renamed_entry_is_persisted_witness :
  let p := checkEphemeralStateChanged (viewing "c.md" 90000)
             (checkEphemeralStateChanged (viewing "c.md" 70000)
                (fst (onload None empty_vault empty_vault
                             (viewing "c.md" 0)))) in
  (reachable p [] /\ db_get (db p) "c.md" = Some (at_offset 90000))
  /\ exists p1 v1 io1 d,
       flush (renameFile {| path := "d.md" |} "c.md" p) empty_vault
       = Js.Ok (p1, v1, io1)
       /\ readDb (settings p) v1 = Js.Ok d
       /\ db_get d "d.md" = Some (at_offset 90000).
Proof.
  intros p.
  assert (Hreach : reachable p []).
  { exact (reach_scroll _ _ _
             (reach_scroll _ _ _
                (reach_onload None empty_vault empty_vault
                              (viewing "c.md" 0)))). }
  assert (Hne : path {| path := "d.md" |} <> "c.md"%string)
    by (simpl; discriminate).
  assert (Hdirty : JSON_stringify
                     (db (renameFile {| path := "d.md" |} "c.md" p))
                   <> JSON_stringify (lastSavedDb p)) by discriminate.
  split; [split; [exact Hreach | reflexivity]|].
  destruct (renamed_entry_is_persisted {| path := "d.md" |} "c.md" p []
              empty_vault (at_offset 90000)
              Hreach eq_refl Hne eq_refl eq_refl Hdirty)
    as [p1 [v1 [io1 [d [H1 [H2 [H3 _]]]]]]].
  exists p1, v1, io1, d. auto.
Defined.
